(** * mac-address-utils: the validator, the converters, the reversal and the
    equality check of [src/index.js], embedded as Rocq functions.

    Strings are [string]s of 8-bit characters; [String.prototype.toUpperCase]
    is modelled on the ASCII letters, which is all it meets on the strings the
    proved statements feed it (hexadecimal digits, [:] and [-]).  A [Buffer]
    is the list of its bytes.  A JavaScript [throw] is the [Throw] outcome of
    the [Thrown] monad; numbers used as offsets are integers ([Z]) and [~~]
    is the conversion to a signed 32-bit integer, written out. *)

From Stdlib Require Import ZArith NArith List String Ascii Strings.Byte Bool Lia.
From Stdlib Require Import Sorting.Permutation.
Import ListNotations.

Local Open Scope string_scope.
Local Open Scope list_scope.
Local Open Scope Z_scope.

(** ** Exceptions *)

(** The source throws plain [Error] objects told apart by their message; the
    constructors carry what the message interpolates.
    - [InvalidFormatError a None]: ['Not a valid mac address.'], thrown by
      [toBuffer] and [reverseMacAddress] on the address [a];
    - [InvalidFormatError a (Some i)]:
      ['${a}'at index ${i} is not a valid Mac address.], thrown by [areEqual];
    - [BufferTooSmallError off len]: the message of [validateBufferLength];
    - [RangeError]: what Node's [Buffer] raises on an access out of bounds;
    - [TypeError]: a method called on [undefined]. *)
Inductive Error : Type :=
| InvalidFormatError (address : string) (index : option nat)
| BufferTooSmallError (offset : Z) (length : nat)
| RangeError
| TypeError.

Inductive Thrown (A : Type) : Type :=
| Return (a : A)
| Throw (e : Error).

Arguments Return {A} a.
Arguments Throw {A} e.

Definition bind {A B : Type} (m : Thrown A) (k : A -> Thrown B) : Thrown B :=
  match m with
  | Return a => k a
  | Throw e => Throw e
  end.

Notation "x <- m ;; k" := (bind m (fun x => k))
  (at level 61, m at next level, right associativity).
Notation "m ;;; k" := (bind m (fun _ => k))
  (at level 61, right associativity).

(** ** The JavaScript string and number operations the source calls *)

Module JS.

(** One character of [String.prototype.toUpperCase]. *)
Definition toUpperChar (c : ascii) : ascii :=
  let n := N_of_ascii c in
  if ((97 <=? n) && (n <=? 122))%N then ascii_of_N (n - 32) else c.

Fixpoint toUpperCase (s : string) : string :=
  match s with
  | EmptyString => EmptyString
  | String c r => String (toUpperChar c) (toUpperCase r)
  end.

(** The character class [[:-]]. *)
Definition isSeparator (c : ascii) : bool :=
  Ascii.eqb c ":" || Ascii.eqb c "-".

(** [s.split(/[:-]/)]: the pieces between the separator characters; a
    string without separator (the empty one too) is a single piece. *)
Fixpoint split (s : string) : list string :=
  match s with
  | EmptyString => [EmptyString]
  | String c r =>
      if isSeparator c then EmptyString :: split r
      else match split r with
           | g :: gs => String c g :: gs
           | [] => [String c EmptyString]
           end
  end.

(** [s.replace(/[:-]/g, '')]. *)
Fixpoint stripSeparators (s : string) : string :=
  match s with
  | EmptyString => EmptyString
  | String c r =>
      if isSeparator c then stripSeparators r
      else String c (stripSeparators r)
  end.

(** [array.join(sep)]. *)
Definition join (sep : string) (array : list string) : string :=
  String.concat sep array.

(** [~~x] on an integer-valued number: [ToInt32]. *)
Definition toInt32 (x : Z) : Z :=
  (x + 2 ^ 31) mod 2 ^ 32 - 2 ^ 31.

(** [~~offset] where the argument may have been left out ([undefined]). *)
Definition bitwiseNotNot (offset : option Z) : Z :=
  match offset with
  | None => 0
  | Some x => toInt32 x
  end.

Definition digitChar (d : N) : ascii :=
  if (d <? 10)%N then ascii_of_N (48 + d) else ascii_of_N (87 + d).

Fixpoint digits16 (fuel : nat) (n : N) (acc : string) : string :=
  match fuel with
  | O => acc
  | S fuel' =>
      let acc' := String (digitChar (n mod 16)) acc in
      if (n / 16 =? 0)%N then acc' else digits16 fuel' (n / 16) acc'
  end.

(** [n.toString(16)] for a non-negative integer: lower-case digits, no
    padding. *)
Definition toString16 (n : N) : string :=
  digits16 (S (N.to_nat (N.log2 n))) n EmptyString.

End JS.

(** ** Node's [Buffer] *)

Definition Buffer := list byte.

Module Buf.

(** [Buffer.alloc(size, '00', 'hex')]: [size] bytes, each [0x00]. *)
Definition alloc (size : nat) : Buffer := repeat x00 size.

(** [buf.readUInt8(i)]. *)
Definition readUInt8 (buf : Buffer) (i : Z) : Thrown N :=
  if (i <? 0) || (Z.of_nat (List.length buf) <=? i) then Throw RangeError
  else Return (Byte.to_N (nth (Z.to_nat i) buf x00)).

Definition unhex (c : ascii) : option N :=
  let n := N_of_ascii c in
  if ((48 <=? n) && (n <=? 57))%N then Some (n - 48)%N
  else if ((65 <=? n) && (n <=? 70))%N then Some (n - 55)%N
  else if ((97 <=? n) && (n <=? 102))%N then Some (n - 87)%N
  else None.

(** The bytes a ['hex'] string decodes to: one per pair of digits, up to
    the first pair that is not hexadecimal. *)
Fixpoint hexDecode (s : string) : list byte :=
  match s with
  | String a (String b r) =>
      match unhex a, unhex b with
      | Some x, Some y =>
          match Byte.of_N (16 * x + y) with
          | Some v => v :: hexDecode r
          | None => []
          end
      | _, _ => []
      end
  | _ => []
  end.

(** [buf.write(s, offset, len, 'hex')]: the contents of [buf] afterwards.
    At most [len] bytes are written, and no more than fit after
    [offset]. *)
Definition write (buf : Buffer) (s : string) (offset len : Z) : Thrown Buffer :=
  if (offset <? 0) || (Z.of_nat (List.length buf) <? offset) then Throw RangeError
  else
    let remaining := Z.of_nat (List.length buf) - offset in
    let bytes := firstn (Z.to_nat (Z.min len remaining)) (hexDecode s) in
    let start := Z.to_nat offset in
    Return (firstn start buf ++ bytes ++ skipn (start + List.length bytes) buf).

End Buf.

(** ** The functions of [src/index.js] *)

Definition bufferLength : Z := 6.

Definition validateBufferLength (buf : Buffer) (offset : Z) : Thrown unit :=
  if Z.of_nat (List.length buf) <? offset + bufferLength
  then Throw (BufferTooSmallError offset (List.length buf))
  else Return tt.

Definition constructMacAddress (array : list string) (separator : option string) : string :=
  let sep := match separator with
             | None => ":"
             | Some EmptyString => ":"
             | Some s => s
             end in
  let joinedString := JS.join sep array in
  JS.toUpperCase joinedString.

(** *** The regular expression of [isMacAddress]

    [/^[0-9A-Fa-f]{2}([:-])(?:[0-9A-Fa-f]{2}\1){4}[0-9A-Fa-f]{2}$/].
    Every piece consumes a fixed number of characters, so matching is a
    left-to-right scan; each piece below returns what is left of the input. *)
Module RegEx.

(** [[0-9A-Fa-f]] *)
Definition hexClass (c : ascii) : bool :=
  let n := N_of_ascii c in
  (((48 <=? n) && (n <=? 57)) || ((65 <=? n) && (n <=? 70))
   || ((97 <=? n) && (n <=? 102)))%N.

(** [[0-9A-Fa-f]{2}] *)
Definition hexPair (s : string) : option string :=
  match s with
  | String a (String b r) => if hexClass a && hexClass b then Some r else None
  | _ => None
  end.

(** [([:-])]: the captured character and the rest. *)
Definition separatorGroup (s : string) : option (ascii * string) :=
  match s with
  | String c r => if JS.isSeparator c then Some (c, r) else None
  | EmptyString => None
  end.

(** [\1] *)
Definition backReference (captured : ascii) (s : string) : option string :=
  match s with
  | String c r => if Ascii.eqb c captured then Some r else None
  | EmptyString => None
  end.

(** [(?: p ){n}] *)
Fixpoint times (n : nat) (p : string -> option string) (s : string) : option string :=
  match n with
  | O => Some s
  | S n' => match p s with
            | Some r => times n' p r
            | None => None
            end
  end.

(** [$] *)
Definition atEnd (s : string) : bool :=
  match s with
  | EmptyString => true
  | String _ _ => false
  end.

Definition macRegEx_test (s : string) : bool :=
  match hexPair s with
  | None => false
  | Some r1 =>
      match separatorGroup r1 with
      | None => false
      | Some (sep, r2) =>
          match times 4 (fun x => match hexPair x with
                                  | Some y => backReference sep y
                                  | None => None
                                  end) r2 with
          | None => false
          | Some r3 =>
              match hexPair r3 with
              | None => false
              | Some r4 => atEnd r4
              end
          end
      end
  end.

End RegEx.

Definition isMacAddress (macAddress : string) : bool :=
  RegEx.macRegEx_test macAddress.

Definition reverseMacAddress (macAddress : string) : Thrown string :=
  if negb (isMacAddress macAddress) then Throw (InvalidFormatError macAddress None)
  else
    let upperCaseMac := JS.toUpperCase macAddress in
    let macArray := JS.split upperCaseMac in
    Return (constructMacAddress (rev macArray) None).

Definition toArray (macAddress : string) : list string :=
  let upperCaseMac := JS.toUpperCase macAddress in
  JS.split upperCaseMac.

(** [buf] is [None] when the caller passes no [Buffer]
    ([Buffer.isBuffer(buf)] is false).  The result is the contents of
    [tempBuffer], which is the caller's buffer itself when one was passed. *)
Definition toBuffer (mac : string) (buf : option Buffer) (offset : option Z) : Thrown Buffer :=
  if negb (isMacAddress mac) then Throw (InvalidFormatError mac None)
  else
    let convertedMac := JS.stripSeparators mac in
    let bitwiseOffset := JS.bitwiseNotNot offset in
    let tempBuffer := match buf with
                      | Some b => b
                      | None => Buf.alloc (Z.to_nat bufferLength)
                      end in
    validateBufferLength tempBuffer bitwiseOffset ;;;
    match buf with
    | None => Buf.write tempBuffer convertedMac bitwiseOffset bufferLength
    | Some _ => Return tempBuffer
    end.

(** The [for] loop of [toString], [n] iterations from index [i]. *)
Fixpoint toString_loop (buf : Buffer) (bitwiseOffset : Z) (n : nat) (i : Z)
    (values : list string) : Thrown (list string) :=
  match n with
  | O => Return values
  | S n' =>
      tempByte <- Buf.readUInt8 buf (bitwiseOffset + i) ;;
      let tempString := JS.toString16 tempByte in
      let tempString := if (String.length tempString <? 2)%nat
                        then ("0" ++ tempString)%string else tempString in
      toString_loop buf bitwiseOffset n' (i + 1) (values ++ [tempString])
  end.

Definition toString (buf : Buffer) (offset : option Z) (separator : option string) : Thrown string :=
  let bitwiseOffset := JS.bitwiseNotNot offset in
  validateBufferLength buf bitwiseOffset ;;;
  values <- toString_loop buf bitwiseOffset (Z.to_nat bufferLength) 0 [] ;;
  Return (constructMacAddress values separator).

Definition containsAll (arr1 arr2 : list string) : bool :=
  forallb (fun arr2Item => existsb (String.eqb arr2Item) arr1) arr2.

Definition sameElements (arr1 arr2 : list string) : bool :=
  containsAll arr1 arr2 && containsAll arr2 arr1.

(** The first [forEach] of [areEqual]: validate and convert, left to right. *)
Fixpoint areEqual_convert (macAddresses : list string) (index : nat)
    (convertedAddresses : list (list string)) : Thrown (list (list string)) :=
  match macAddresses with
  | [] => Return convertedAddresses
  | macAddress :: rest =>
      if negb (isMacAddress macAddress)
      then Throw (InvalidFormatError macAddress (Some index))
      else areEqual_convert rest (S index)
             (convertedAddresses ++ [toArray macAddress])
  end.

(** The second [forEach]: [todo] is what is left to visit of
    [convertedAddresses], [equal] the flag so far. *)
Fixpoint areEqual_compare (convertedAddresses todo : list (list string))
    (equal : bool) : Thrown bool :=
  match todo with
  | [] => Return equal
  | array :: rest =>
      match nth_error convertedAddresses 0 with
      | None => Throw TypeError
      | Some first =>
          areEqual_compare convertedAddresses rest
            (if negb (sameElements first array) then false else equal)
      end
  end.

Definition areEqual (macAddresses : list string) : Thrown bool :=
  convertedAddresses <- areEqual_convert macAddresses 0 [] ;;
  areEqual_compare convertedAddresses convertedAddresses true.

(** ** The string format in the words of the specification *)

Module Spec.

(** The hexadecimal characters: 0-9, A-F, a-f. *)
Definition hexChars : list ascii :=
  list_ascii_of_string "0123456789ABCDEFabcdef".

(** A group: exactly 2 hexadecimal characters. *)
Definition group (g : string) : Prop :=
  String.length g = 2%nat /\
  Forall (fun c => In c hexChars) (list_ascii_of_string g).

(** Exactly 6 groups joined by one separator character, [:] or [-], the
    same between every two neighbours. *)
Definition macString (s : string) : Prop :=
  exists (sep : ascii) (groups : list string),
    (sep = ":"%char \/ sep = "-"%char) /\
    List.length groups = 6%nat /\
    Forall group groups /\
    s = String.concat (String sep EmptyString) groups.

(** How many times a character occurs in a string. *)
Fixpoint occurrences (c : ascii) (s : string) : nat :=
  match s with
  | EmptyString => O
  | String d r => ((if Ascii.eqb d c then 1 else 0) + occurrences c r)%nat
  end.

Definition upperDigits : list ascii := list_ascii_of_string "0123456789ABCDEF".

(** A byte as 2 upper-case hexadecimal digits, zero-padded. *)
Definition hex2 (v : byte) : string :=
  let n := N.to_nat (Byte.to_N v) in
  String (nth (n / 16) upperDigits "0"%char)
    (String (nth (n mod 16) upperDigits "0"%char) EmptyString).

(** The value of a hexadecimal digit, either case. *)
Definition digitValue (c : ascii) : option N :=
  let fix find (l : list ascii) (i : N) : option N :=
    match l with
    | [] => None
    | d :: l' => if Ascii.eqb d (JS.toUpperChar c) then Some i else find l' (i + 1)%N
    end in
  find upperDigits 0%N.

(** The value of a group: the number its 2 digits write in base 16. *)
Definition groupValue (g : string) : option N :=
  match g with
  | String a (String b EmptyString) =>
      match digitValue a, digitValue b with
      | Some x, Some y => Some (16 * x + y)%N
      | _, _ => None
      end
  | _ => None
  end.

(** Two group sequences taken as sets: each group of one occurs in the
    other. *)
Definition setEqual (A B : list string) : Prop :=
  forall g, In g A <-> In g B.

(** A hexadecimal character in upper case: [a]..[f] become [A]..[F], the
    other hexadecimal characters stay. *)
Definition upperHexChar (c : ascii) : ascii :=
  if Ascii.eqb c "a" then "A"%char
  else if Ascii.eqb c "b" then "B"%char
  else if Ascii.eqb c "c" then "C"%char
  else if Ascii.eqb c "d" then "D"%char
  else if Ascii.eqb c "e" then "E"%char
  else if Ascii.eqb c "f" then "F"%char
  else c.

(** A group in upper case. *)
Fixpoint upperGroup (g : string) : string :=
  match g with
  | EmptyString => EmptyString
  | String c r => String (upperHexChar c) (upperGroup r)
  end.

(** [G] is the upper-case group sequence of the address [s]: [s] is 6
    groups joined by one separator, and [G] is those groups, in their order,
    each in upper case. *)
Definition groupSequence (s : string) (G : list string) : Prop :=
  exists (sep : ascii) (groups : list string),
    (sep = ":"%char \/ sep = "-"%char) /\
    List.length groups = 6%nat /\
    Forall group groups /\
    s = String.concat (String sep EmptyString) groups /\
    G = map upperGroup groups.

End Spec.

(** ** Auxiliary definitions of the proofs *)

(** A pair of hexadecimal characters as a string. *)
Definition pair (a b : ascii) : string := String a (String b EmptyString).

Definition pairOf (p : ascii * ascii) : string := pair (fst p) (snd p).

(** The characters of an address laid out as the expression reads them:
    pairs with the separator [sep] between them. *)
Definition layout (sep : ascii) (g : list (ascii * ascii)) : string :=
  String.concat (String sep EmptyString) (map pairOf g).

(** Both characters of a pair are in the class [[0-9A-Fa-f]]. *)
Definition hexBoth (p : ascii * ascii) : Prop :=
  RegEx.hexClass (fst p) = true /\ RegEx.hexClass (snd p) = true.

(** [toUpperCase] on a pair. *)
Definition upperPair (p : ascii * ascii) : ascii * ascii :=
  (JS.toUpperChar (fst p), JS.toUpperChar (snd p)).

(** The byte a pair of hexadecimal digits decodes to. *)
Definition octet (p : ascii * ascii) : byte :=
  match Buf.unhex (fst p), Buf.unhex (snd p) with
  | Some x, Some y =>
      match Byte.of_N (16 * x + y) with
      | Some v => v
      | None => x00
      end
  | _, _ => x00
  end.

(** The two upper-case digits of a byte. *)
Definition digitsOf (v : byte) : ascii * ascii :=
  let n := N.to_nat (Byte.to_N v) in
  (nth (n / 16) Spec.upperDigits "0"%char,
   nth (n mod 16) Spec.upperDigits "0"%char).

(** What the body of the loop of [toString] makes of one byte. *)
Definition renderByte (v : byte) : string :=
  let tempString := JS.toString16 (Byte.to_N v) in
  if (String.length tempString <? 2)%nat
  then ("0" ++ tempString)%string else tempString.

(** The outcome is the exception of [validateBufferLength]. *)
Definition throwsBufferTooSmall {A : Type} (r : Thrown A) : Prop :=
  match r with
  | Throw (BufferTooSmallError _ _) => True
  | _ => False
  end.

(** The characters on which [JS.toUpperChar] is [toUpperCase] exactly: the
    ASCII ones. *)
Definition isAsciiChar (c : ascii) : bool := (N_of_ascii c <? 128)%N.

Fixpoint isAsciiString (s : string) : bool :=
  match s with
  | EmptyString => true
  | String c r => isAsciiChar c && isAsciiString r
  end.

(** How many separator characters, [:] or [-], a string holds. *)
Definition separators (s : string) : nat :=
  (Spec.occurrences ":" s + Spec.occurrences "-" s)%nat.

(** The 6 bytes [toString] reads: those from index [t] on. *)
Definition window (buf : Buffer) (t : Z) : Buffer :=
  firstn 6 (skipn (Z.to_nat t) buf).

(** The separators the validator knows, as [toString] and
    [constructMacAddress] take them: left out, [:] or [-]. *)
Definition macSeparator (separator : option string) : Prop :=
  separator = None \/ separator = Some ":" \/ separator = Some "-".

(** All the addresses of a list are valid. *)
Definition allValid (l : list string) : Prop :=
  Forall (fun a => isMacAddress a = true) l.

(** [separator || ':']: the separator [constructMacAddress] joins with. *)
Definition separatorOrDefault (separator : option string) : string :=
  match separator with
  | None => ":"
  | Some EmptyString => ":"
  | Some s => s
  end.

(** Case analysis on the 256 characters. *)
Ltac each_ascii c := destruct c as [[] [] [] [] [] [] [] []].

(** ** Sanity checks on the inputs of the repository's tests *)

Example test_isMacAddress_valid :
  map isMacAddress
    ["09-64-E4-77-F1-4A"; "00-00-00-00-00-00"; "ff-ff-ff-ff-ff-ff";
     "Ff-ff-FF-DA-12-00"; "1C:91:76:89:60:94"; "00:00:00:00:00:00";
     "ff:ff:ff:ff:ff:ff"; "Ff:ff:FF:DA:12:00"]
  = repeat true 8.
Proof. reflexivity. Qed.

Example test_isMacAddress_invalid :
  map isMacAddress
    ["00-ff-da:ff:00:da"; "xx:00:da:53:ff:ff"; "xx:xx:xx:xx:xx:xx";
     "XX:XX"; "FF:FF:FF:FF:FF:FF:FF"; "fff:00:00:00:00:00";
     "f:ff:ff:ff:ff:ff"; ""; "some:random:text"; "justaword";
     "a random sentence"]
  = repeat false 11.
Proof. reflexivity. Qed.

Example test_areEqual :
  areEqual ["AA:AA:AA:AA:AA:AA"; "AA:AA:AA:AA:AA:AA"] = Return true /\
  areEqual ["BB:BB:BB:BB:BB:BB"; "bb:bb:bb:bb:bb:bb"] = Return true /\
  areEqual ["AA:BB:CC:DD:EE:FF"; "AA:AA:AA:AA:AA:AA"] = Return false /\
  areEqual ["BB:BB:BB:BB:BB:BB"; "dd:dd:dd:dd:dd:dd"; "ff:cc:FF:ee:CC:bb"] = Return false.
Proof. repeat split; reflexivity. Qed.

Example test_toArray :
  toArray "AA:BB:CC:DD:EE:FF" = ["AA"; "BB"; "CC"; "DD"; "EE"; "FF"].
Proof. reflexivity. Qed.

Example test_toString :
  toString [xaa; xbb; xcc; xdd; xee; xff] None None = Return "AA:BB:CC:DD:EE:FF".
Proof. reflexivity. Qed.

Example test_toBuffer :
  toBuffer "AA:BB:CC:DD:EE:FF" None None = Return [xaa; xbb; xcc; xdd; xee; xff].
Proof. reflexivity. Qed.

Example test_reverseMacAddress :
  reverseMacAddress "AA:BB:CC:DD:EE:FF" = Return "FF:EE:DD:CC:BB:AA".
Proof. reflexivity. Qed.

(** ** Characters *)

Lemma hexClass_hexChars (c : ascii) :
  RegEx.hexClass c = existsb (Ascii.eqb c) Spec.hexChars.
Proof. each_ascii c; reflexivity. Qed.

Lemma hexClass_In (c : ascii) :
  RegEx.hexClass c = true <-> In c Spec.hexChars.
Proof.
  rewrite hexClass_hexChars, existsb_exists. split.
  - intros [d [Hd E]]. apply Ascii.eqb_eq in E. now subst.
  - intros H. exists c. split; [assumption | apply Ascii.eqb_refl].
Qed.

Lemma hexClass_not_separator (c : ascii) :
  RegEx.hexClass c = true -> JS.isSeparator c = false.
Proof. each_ascii c; intros H; try reflexivity; discriminate H. Qed.

Lemma toUpperChar_hexClass (c : ascii) :
  RegEx.hexClass c = true -> RegEx.hexClass (JS.toUpperChar c) = true.
Proof. each_ascii c; intros H; try reflexivity; discriminate H. Qed.

Lemma toUpperChar_idempotent (c : ascii) :
  JS.toUpperChar (JS.toUpperChar c) = JS.toUpperChar c.
Proof. each_ascii c; reflexivity. Qed.

Lemma toUpperChar_separator (c : ascii) :
  JS.isSeparator c = true -> JS.toUpperChar c = c.
Proof. each_ascii c; intros H; try reflexivity; discriminate H. Qed.

Lemma isSeparator_true (c : ascii) :
  JS.isSeparator c = true <-> (c = ":"%char \/ c = "-"%char).
Proof.
  unfold JS.isSeparator. rewrite orb_true_iff, !Ascii.eqb_eq. reflexivity.
Qed.

(** ** Inverting the pieces of the regular expression *)

Lemma hexPair_Some (s r : string) :
  RegEx.hexPair s = Some r <->
  exists a b, s = String a (String b r) /\
              RegEx.hexClass a = true /\ RegEx.hexClass b = true.
Proof.
  split.
  - destruct s as [|a [|b t]]; simpl; try discriminate.
    destruct (RegEx.hexClass a) eqn:Ha; destruct (RegEx.hexClass b) eqn:Hb;
      simpl; try discriminate.
    intros [= <-]. now exists a, b.
  - intros (a & b & -> & Ha & Hb). simpl. now rewrite Ha, Hb.
Qed.

Lemma separatorGroup_Some (s r : string) (c : ascii) :
  RegEx.separatorGroup s = Some (c, r) <->
  s = String c r /\ JS.isSeparator c = true.
Proof.
  split.
  - destruct s as [|d t]; simpl; try discriminate.
    destruct (JS.isSeparator d) eqn:Hd; try discriminate.
    intros [= <- <-]. now split.
  - intros [-> H]. simpl. now rewrite H.
Qed.

Lemma backReference_Some (c : ascii) (s r : string) :
  RegEx.backReference c s = Some r <-> s = String c r.
Proof.
  split.
  - destruct s as [|d t]; simpl; try discriminate.
    destruct (Ascii.eqb d c) eqn:Hd; try discriminate.
    apply Ascii.eqb_eq in Hd. intros [= <-]. now subst.
  - intros ->. simpl. now rewrite Ascii.eqb_refl.
Qed.

Lemma hexPair_intro (a b : ascii) (r : string) :
  RegEx.hexClass a = true -> RegEx.hexClass b = true ->
  RegEx.hexPair (String a (String b r)) = Some r.
Proof. intros Ha Hb. apply hexPair_Some. now exists a, b. Qed.

Lemma separatorGroup_intro (c : ascii) (r : string) :
  JS.isSeparator c = true -> RegEx.separatorGroup (String c r) = Some (c, r).
Proof. intros H. now apply separatorGroup_Some. Qed.

Lemma backReference_intro (c : ascii) (r : string) :
  RegEx.backReference c (String c r) = Some r.
Proof. now apply backReference_Some. Qed.

Lemma isMacAddress_layout (s : string) :
  isMacAddress s = true <->
  exists sep g, s = layout sep g /\ JS.isSeparator sep = true /\
                List.length g = 6%nat /\ Forall hexBoth g.
Proof.
  unfold isMacAddress, RegEx.macRegEx_test. split.
  - destruct (RegEx.hexPair s) as [r1|] eqn:H1; try discriminate.
    destruct (RegEx.separatorGroup r1) as [[sep r2]|] eqn:H2; try discriminate.
    simpl RegEx.times.
    destruct (RegEx.hexPair r2) as [u2|] eqn:H3; try discriminate.
    destruct (RegEx.backReference sep u2) as [r3|] eqn:H4; try discriminate.
    destruct (RegEx.hexPair r3) as [u3|] eqn:H5; try discriminate.
    destruct (RegEx.backReference sep u3) as [r4|] eqn:H6; try discriminate.
    destruct (RegEx.hexPair r4) as [u4|] eqn:H7; try discriminate.
    destruct (RegEx.backReference sep u4) as [r5|] eqn:H8; try discriminate.
    destruct (RegEx.hexPair r5) as [u5|] eqn:H9; try discriminate.
    destruct (RegEx.backReference sep u5) as [r6|] eqn:H10; try discriminate.
    destruct (RegEx.hexPair r6) as [r7|] eqn:H11; try discriminate.
    destruct r7; try discriminate. intros _.
    apply hexPair_Some in H1 as (a1 & b1 & -> & A1 & B1).
    apply separatorGroup_Some in H2 as [-> Hs].
    apply hexPair_Some in H3 as (a2 & b2 & -> & A2 & B2).
    apply backReference_Some in H4 as ->.
    apply hexPair_Some in H5 as (a3 & b3 & -> & A3 & B3).
    apply backReference_Some in H6 as ->.
    apply hexPair_Some in H7 as (a4 & b4 & -> & A4 & B4).
    apply backReference_Some in H8 as ->.
    apply hexPair_Some in H9 as (a5 & b5 & -> & A5 & B5).
    apply backReference_Some in H10 as ->.
    apply hexPair_Some in H11 as (a6 & b6 & -> & A6 & B6).
    exists sep, [(a1, b1); (a2, b2); (a3, b3); (a4, b4); (a5, b5); (a6, b6)].
    repeat split; try assumption; try reflexivity.
    repeat constructor; assumption.
  - intros (sep & g & -> & Hs & Hlen & Hg).
    destruct g as [|[a1 b1] [|[a2 b2] [|[a3 b3] [|[a4 b4] [|[a5 b5] [|[a6 b6] [|]]]]]]];
      try discriminate Hlen.
    repeat match goal with
           | H : Forall _ (_ :: _) |- _ => inversion H as [|? ? [? ?] ?]; subst; clear H
           end.
    unfold hexBoth in *. cbn [fst snd] in *.
    unfold layout, pairOf, pair. cbn [String.concat map fst snd append].
    rewrite hexPair_intro by assumption.
    rewrite separatorGroup_intro by assumption.
    cbn [RegEx.times].
    repeat (rewrite hexPair_intro by assumption; rewrite ?backReference_intro).
    reflexivity.
Qed.

(** ** The validator against the format of the specification *)

Lemma group_pair (g : string) :
  Spec.group g <-> exists p, g = pairOf p /\ hexBoth p.
Proof.
  unfold Spec.group, hexBoth, pairOf, pair. split.
  - intros [Hlen Hall].
    destruct g as [|a [|b [|c t]]]; try discriminate Hlen.
    cbn [list_ascii_of_string] in Hall.
    inversion Hall as [|? ? Ha Hall']; subst.
    inversion Hall' as [|? ? Hb _]; subst.
    exists (a, b). cbn [fst snd]. rewrite !hexClass_In. auto.
  - intros ([a b] & -> & Ha & Hb). cbn [fst snd] in *. split; [reflexivity|].
    apply hexClass_In in Ha, Hb. cbn [list_ascii_of_string].
    constructor; [assumption|]. constructor; [assumption|]. constructor.
Qed.

Lemma groups_pairs (groups : list string) :
  Forall Spec.group groups <->
  exists g, groups = map pairOf g /\ Forall hexBoth g.
Proof.
  split.
  - induction 1 as [|x l Hx _ (g & -> & Hg)].
    + now exists [].
    + apply group_pair in Hx as (p & -> & Hp).
      exists (p :: g). split; [reflexivity | now constructor].
  - intros (g & -> & Hg). induction Hg as [|p g Hp _ IH]; simpl.
    + constructor.
    + constructor; [apply group_pair; now exists p | assumption].
Qed.

Lemma macString_layout (s : string) :
  Spec.macString s <->
  exists sep g, s = layout sep g /\ JS.isSeparator sep = true /\
                List.length g = 6%nat /\ Forall hexBoth g.
Proof.
  unfold Spec.macString, layout. split.
  - intros (sep & groups & Hsep & Hlen & Hall & ->).
    apply groups_pairs in Hall as (g & -> & Hg).
    exists sep, g. rewrite length_map in Hlen.
    repeat split; try assumption. now apply isSeparator_true.
  - intros (sep & g & -> & Hsep & Hlen & Hg).
    exists sep, (map pairOf g). rewrite length_map.
    repeat split; try assumption.
    + now apply isSeparator_true.
    + apply groups_pairs. now exists g.
Qed.

Lemma hexClass_eqb_separator (a c : ascii) :
  RegEx.hexClass a = true -> JS.isSeparator c = true -> Ascii.eqb a c = false.
Proof.
  intros Ha Hc. destruct (Ascii.eqb a c) eqn:E; [|reflexivity].
  apply Ascii.eqb_eq in E. subst.
  apply hexClass_not_separator in Ha. congruence.
Qed.

Lemma layout_counts (sep : ascii) (g : list (ascii * ascii)) :
  JS.isSeparator sep = true -> List.length g = 6%nat -> Forall hexBoth g ->
  String.length (layout sep g) = 17%nat /\
  Spec.occurrences sep (layout sep g) = 5%nat /\
  forall c, JS.isSeparator c = true -> c <> sep ->
            Spec.occurrences c (layout sep g) = 0%nat.
Proof.
  intros Hs Hlen Hg.
  destruct g as [|[a1 b1] [|[a2 b2] [|[a3 b3] [|[a4 b4] [|[a5 b5] [|[a6 b6] [|]]]]]]];
    try discriminate Hlen.
  repeat match goal with
         | H : Forall _ (_ :: _) |- _ => inversion H as [|? ? [? ?] ?]; subst; clear H
         end.
  cbn [fst snd] in *.
  unfold layout, pairOf, pair. cbn [String.concat map fst snd append].
  split; [reflexivity|]. split.
  - cbn [Spec.occurrences].
    rewrite !Ascii.eqb_refl.
    repeat match goal with
           | H : RegEx.hexClass ?a = true |- _ =>
               rewrite (hexClass_eqb_separator a sep H Hs); clear H
           end.
    reflexivity.
  - intros c Hc Hne. cbn [Spec.occurrences].
    repeat match goal with
           | H : RegEx.hexClass ?a = true |- _ =>
               rewrite (hexClass_eqb_separator a c H Hc); clear H
           end.
    assert (E : Ascii.eqb sep c = false).
    { destruct (Ascii.eqb sep c) eqn:E; [|reflexivity].
      apply Ascii.eqb_eq in E. congruence. }
    rewrite E. reflexivity.
Qed.

(** C4. [isMacAddress s] is true exactly when [s] is 6 groups of exactly 2
    hexadecimal characters joined by one separator character, [:] or [-],
    the same throughout; such a string has 17 characters, 5 of them that
    separator and none the other one (so nothing leads, trails or is mixed);
    the empty string gives false.  [isMacAddress] is a total function to
    [bool]: it has no [Throw] outcome. *)
Theorem isMacAddress_iff_macString (s : string) :
  (isMacAddress s = true <-> Spec.macString s) /\
  (isMacAddress s = true ->
     String.length s = 17%nat /\
     ((Spec.occurrences ":" s = 5%nat /\ Spec.occurrences "-" s = 0%nat) \/
      (Spec.occurrences ":" s = 0%nat /\ Spec.occurrences "-" s = 5%nat))) /\
  isMacAddress "" = false.
Proof.
  split; [|split].
  - rewrite isMacAddress_layout, macString_layout. reflexivity.
  - intros H. apply isMacAddress_layout in H as (sep & g & -> & Hs & Hlen & Hg).
    destruct (layout_counts sep g Hs Hlen Hg) as (L & Own & Other).
    split; [exact L|].
    apply isSeparator_true in Hs as Hs'. destruct Hs' as [-> | ->].
    + left. split; [exact Own|]. apply Other; [reflexivity | discriminate].
    + right. split; [|exact Own]. apply Other; [reflexivity | discriminate].
  - reflexivity.
Qed.

Lemma isMacAddress_iff_macString_witness :
  Spec.macString "1C:91:76:89:60:94" /\
  String.length "1C:91:76:89:60:94" = 17%nat.
Proof.
  split.
  - apply (proj1 (isMacAddress_iff_macString "1C:91:76:89:60:94")).
    reflexivity.
  - apply (proj1 (proj2 (isMacAddress_iff_macString "1C:91:76:89:60:94"))).
    reflexivity.
Defined.

(** ** Upper-casing and splitting a valid address *)

Lemma toUpperCase_app (s t : string) :
  JS.toUpperCase (s ++ t) = (JS.toUpperCase s ++ JS.toUpperCase t)%string.
Proof. induction s as [|c s IH]; simpl; [reflexivity | now rewrite IH]. Qed.

Lemma toUpperCase_concat (sep : string) (l : list string) :
  JS.toUpperCase (String.concat sep l) =
  String.concat (JS.toUpperCase sep) (map JS.toUpperCase l).
Proof.
  induction l as [|x [|y l] IH]; try reflexivity.
  cbn [String.concat map] in *.
  now rewrite !toUpperCase_app, IH.
Qed.

Lemma toUpperCase_idempotent (s : string) :
  JS.toUpperCase (JS.toUpperCase s) = JS.toUpperCase s.
Proof.
  induction s as [|c s IH]; simpl; [reflexivity|].
  now rewrite toUpperChar_idempotent, IH.
Qed.

Lemma toUpperCase_pairOf (p : ascii * ascii) :
  JS.toUpperCase (pairOf p) = pairOf (upperPair p).
Proof. reflexivity. Qed.

Lemma toUpperCase_layout (sep : ascii) (g : list (ascii * ascii)) :
  JS.isSeparator sep = true ->
  JS.toUpperCase (layout sep g) = layout sep (map upperPair g).
Proof.
  intros Hs. unfold layout. rewrite toUpperCase_concat, !map_map.
  cbn [JS.toUpperCase]. rewrite (toUpperChar_separator sep Hs).
  reflexivity.
Qed.

Lemma hexBoth_upperPair (p : ascii * ascii) :
  hexBoth p -> hexBoth (upperPair p).
Proof.
  intros [Ha Hb]. split; apply toUpperChar_hexClass; assumption.
Qed.

Lemma Forall_hexBoth_upper (g : list (ascii * ascii)) :
  Forall hexBoth g -> Forall hexBoth (map upperPair g).
Proof.
  induction 1; simpl; constructor; auto using hexBoth_upperPair.
Qed.

Lemma upperPair_idempotent (p : ascii * ascii) :
  upperPair (upperPair p) = upperPair p.
Proof.
  unfold upperPair. simpl. now rewrite !toUpperChar_idempotent.
Qed.

Lemma split_pair_last (p : ascii * ascii) :
  hexBoth p -> JS.split (pairOf p) = [pairOf p].
Proof.
  intros [Ha Hb]. unfold pairOf, pair. cbn [JS.split].
  now rewrite (hexClass_not_separator _ Ha), (hexClass_not_separator _ Hb).
Qed.

Lemma split_pair_more (p : ascii * ascii) (sep : ascii) (rest : string) :
  hexBoth p -> JS.isSeparator sep = true ->
  JS.split (pairOf p ++ String sep rest) = pairOf p :: JS.split rest.
Proof.
  intros [Ha Hb] Hs. unfold pairOf, pair. cbn [JS.split append].
  now rewrite (hexClass_not_separator _ Ha), (hexClass_not_separator _ Hb), Hs.
Qed.

Lemma split_layout (sep : ascii) (g : list (ascii * ascii)) :
  JS.isSeparator sep = true -> g <> [] -> Forall hexBoth g ->
  JS.split (layout sep g) = map pairOf g.
Proof.
  intros Hs Hne Hg. unfold layout.
  induction Hg as [|p g Hp Hg IH]; [congruence|].
  destruct g as [|q g].
  - cbn [map String.concat]. now apply split_pair_last.
  - cbn [map String.concat] in *. cbn [append].
    rewrite (split_pair_more p sep _ Hp Hs).
    f_equal. apply IH. discriminate.
Qed.

Lemma toArray_layout (sep : ascii) (g : list (ascii * ascii)) :
  JS.isSeparator sep = true -> g <> [] -> Forall hexBoth g ->
  toArray (layout sep g) = map pairOf (map upperPair g).
Proof.
  intros Hs Hne Hg. unfold toArray.
  rewrite (toUpperCase_layout sep g Hs).
  apply split_layout; [assumption | | now apply Forall_hexBoth_upper].
  destruct g; [congruence | discriminate].
Qed.

Lemma nonempty_of_length {A : Type} (g : list A) :
  List.length g = 6%nat -> g <> [].
Proof. destruct g; discriminate. Qed.

(** What [toArray] returns on a valid address: 6 groups, each already in
    upper case. *)
Lemma toArray_valid (a : string) :
  isMacAddress a = true ->
  List.length (toArray a) = 6%nat /\
  Forall (fun g => Spec.group g /\ JS.toUpperCase g = g) (toArray a).
Proof.
  intros H. apply isMacAddress_layout in H as (sep & g & -> & Hs & Hlen & Hg).
  rewrite (toArray_layout sep g Hs (nonempty_of_length g Hlen) Hg).
  split; [now rewrite !length_map|].
  apply Forall_forall. intros x Hx.
  apply in_map_iff in Hx as (p & <- & Hp).
  apply in_map_iff in Hp as (q & <- & Hq).
  rewrite Forall_forall in Hg. specialize (Hg q Hq). split.
  - apply group_pair. exists (upperPair q). split; [reflexivity|].
    now apply hexBoth_upperPair.
  - now rewrite toUpperCase_pairOf, upperPair_idempotent.
Qed.

(** ** The equality check *)

Lemma containsAll_incl (arr1 arr2 : list string) :
  containsAll arr1 arr2 = true <-> (forall g, In g arr2 -> In g arr1).
Proof.
  unfold containsAll. rewrite forallb_forall. split.
  - intros H g Hg. specialize (H g Hg).
    apply existsb_exists in H as (x & Hx & E).
    apply String.eqb_eq in E. now subst.
  - intros H g Hg. apply existsb_exists. exists g.
    split; [now apply H | apply String.eqb_refl].
Qed.

Lemma sameElements_setEqual (arr1 arr2 : list string) :
  sameElements arr1 arr2 = true <-> Spec.setEqual arr1 arr2.
Proof.
  unfold sameElements, Spec.setEqual.
  rewrite andb_true_iff, !containsAll_incl. split.
  - intros [H1 H2] g. split; auto.
  - intros H. split; intros g Hg; now apply H.
Qed.

Lemma sameElements_refl (arr : list string) : sameElements arr arr = true.
Proof. apply sameElements_setEqual. intros g. reflexivity. Qed.

Lemma areEqual_convert_valid (l : list string) (index : nat)
    (acc : list (list string)) :
  Forall (fun a => isMacAddress a = true) l ->
  areEqual_convert l index acc = Return (acc ++ map toArray l).
Proof.
  intros H. revert index acc.
  induction H as [|a l Ha _ IH]; intros index acc; simpl.
  - now rewrite app_nil_r.
  - rewrite Ha. simpl. rewrite IH, <- app_assoc. reflexivity.
Qed.

(** The first invalid address stops the conversion, and the exception names
    it and its position. *)
Lemma areEqual_convert_invalid (pre : list string) (s : string)
    (post : list string) (index : nat) (acc : list (list string)) :
  Forall (fun a => isMacAddress a = true) pre ->
  isMacAddress s = false ->
  areEqual_convert (pre ++ s :: post) index acc =
  Throw (InvalidFormatError s (Some (index + List.length pre)%nat)).
Proof.
  intros Hpre Hs. revert index acc.
  induction Hpre as [|a l Ha _ IH]; intros index acc; simpl.
  - rewrite Hs. simpl. now rewrite Nat.add_0_r.
  - rewrite Ha. simpl. rewrite IH. do 3 f_equal. lia.
Qed.

Lemma areEqual_compare_all (first : list string)
    (others todo : list (list string)) (equal : bool) :
  areEqual_compare (first :: others) todo equal =
  Return (equal && forallb (sameElements first) todo).
Proof.
  revert equal. induction todo as [|array rest IH]; intros equal; simpl.
  - now rewrite andb_true_r.
  - rewrite IH. destruct (sameElements first array), equal; reflexivity.
Qed.

Lemma areEqual_valid (macAddresses : list string) :
  Forall (fun a => isMacAddress a = true) macAddresses ->
  areEqual macAddresses =
  Return (forallb (sameElements (toArray (hd EmptyString macAddresses)))
            (map toArray macAddresses)).
Proof.
  intros H. unfold areEqual.
  rewrite (areEqual_convert_valid _ _ _ H), app_nil_l. cbn [bind].
  destruct macAddresses as [|a l]; [reflexivity|].
  cbn [map hd]. now rewrite areEqual_compare_all.
Qed.

(** Every list of addresses has a first invalid one, or none. *)
Lemma first_invalid (l : list string) :
  Forall (fun a => isMacAddress a = true) l \/
  exists pre s post, l = pre ++ s :: post /\
    Forall (fun a => isMacAddress a = true) pre /\ isMacAddress s = false.
Proof.
  induction l as [|a l [IH | (pre & s & post & -> & Hpre & Hs)]].
  - left. constructor.
  - destruct (isMacAddress a) eqn:Ha.
    + left. now constructor.
    + right. exists [], a, l. repeat split; [constructor | assumption].
  - destruct (isMacAddress a) eqn:Ha.
    + right. exists (a :: pre), s, post. repeat split; [now constructor | assumption].
    + right. exists [], a, (pre ++ s :: post).
      repeat split; [constructor | assumption].
Qed.

Lemma upperHexChar_toUpperChar (c : ascii) :
  RegEx.hexClass c = true -> Spec.upperHexChar c = JS.toUpperChar c.
Proof. each_ascii c; intros H; try reflexivity; discriminate H. Qed.

Lemma upperGroup_pairOf (p : ascii * ascii) :
  hexBoth p -> Spec.upperGroup (pairOf p) = pairOf (upperPair p).
Proof.
  destruct p as [a b]. intros [Ha Hb]. cbn [fst snd] in *.
  unfold pairOf, pair, upperPair. cbn [fst snd Spec.upperGroup].
  now rewrite (upperHexChar_toUpperChar a Ha), (upperHexChar_toUpperChar b Hb).
Qed.

Lemma map_upperGroup_pairs (g : list (ascii * ascii)) :
  Forall hexBoth g ->
  map Spec.upperGroup (map pairOf g) = map pairOf (map upperPair g).
Proof.
  induction 1 as [|p g Hp _ IH]; [reflexivity|].
  cbn [map]. now rewrite IH, (upperGroup_pairOf p Hp).
Qed.

(** A group sequence in terms of the layout of the address. *)
Lemma groupSequence_layout (s : string) (G : list string) :
  Spec.groupSequence s G <->
  exists sep g, s = layout sep g /\ JS.isSeparator sep = true /\
                List.length g = 6%nat /\ Forall hexBoth g /\
                G = map pairOf (map upperPair g).
Proof.
  unfold Spec.groupSequence, layout. split.
  - intros (sep & groups & Hsep & Hlen & Hall & -> & ->).
    apply groups_pairs in Hall as (g & -> & Hg).
    exists sep, g. rewrite length_map in Hlen.
    repeat split; try assumption.
    + now apply isSeparator_true.
    + now apply map_upperGroup_pairs.
  - intros (sep & g & -> & Hsep & Hlen & Hg & ->).
    exists sep, (map pairOf g). rewrite length_map.
    repeat split; try assumption.
    + now apply isSeparator_true.
    + apply groups_pairs. now exists g.
    + symmetry. now apply map_upperGroup_pairs.
Qed.

(** What [toArray] returns for a valid address is its group sequence. *)
Lemma toArray_groupSequence (a : string) :
  isMacAddress a = true -> Spec.groupSequence a (toArray a).
Proof.
  intros H. apply isMacAddress_layout in H as (sep & g & -> & Hs & Hlen & Hg).
  apply groupSequence_layout. exists sep, g.
  repeat split; try assumption.
  apply (toArray_layout sep g Hs (nonempty_of_length g Hlen) Hg).
Qed.

(** An address has no group sequence but the one [toArray] returns. *)
Lemma groupSequence_toArray (a : string) (G : list string) :
  Spec.groupSequence a G -> isMacAddress a = true /\ toArray a = G.
Proof.
  intros H. apply groupSequence_layout in H as (sep & g & -> & Hs & Hlen & Hg & ->).
  split; [apply isMacAddress_layout; now exists sep, g|].
  apply (toArray_layout sep g Hs (nonempty_of_length g Hlen) Hg).
Qed.

(** C5. On arguments that are all valid, [areEqual] converts each to its 6
    upper-case groups and returns true exactly when the groups of every
    argument, taken as a set, are those of the first argument; with a single
    argument it returns true.  The groups are those of the format: an
    argument that reads as 6 groups joined by [:] or by [-] is converted by
    [toArray] to these 6 groups, in their order, with [a]..[f] in upper
    case, and the result of [areEqual] is stated on these sequences. *)
Theorem areEqual_set_equality (macAddresses : list string) :
  Forall (fun a => isMacAddress a = true) macAddresses ->
  (forall a, In a macAddresses ->
     Spec.groupSequence a (toArray a) /\
     (forall G, Spec.groupSequence a G -> toArray a = G) /\
     List.length (toArray a) = 6%nat /\
     Forall (fun g => Spec.group g /\ JS.toUpperCase g = g) (toArray a)) /\
  (exists b, areEqual macAddresses = Return b /\
     (b = true <->
      forall a, In a macAddresses ->
        Spec.setEqual (toArray a) (toArray (hd EmptyString macAddresses))) /\
     (b = true <->
      forall a G G0, In a macAddresses ->
        Spec.groupSequence a G ->
        Spec.groupSequence (hd EmptyString macAddresses) G0 ->
        Spec.setEqual G G0)) /\
  (List.length macAddresses = 1%nat -> areEqual macAddresses = Return true).
Proof.
  intros H.
  assert (Hin : forall a, In a macAddresses -> isMacAddress a = true)
    by (now apply Forall_forall).
  assert (Hiff : forallb (sameElements (toArray (hd EmptyString macAddresses)))
                   (map toArray macAddresses) = true <->
                 forall a, In a macAddresses ->
                   Spec.setEqual (toArray a)
                     (toArray (hd EmptyString macAddresses))).
  { rewrite forallb_forall. split.
    - intros Hall a Ha. specialize (Hall (toArray a) (in_map toArray _ _ Ha)).
      apply sameElements_setEqual in Hall. intros g. symmetry. apply Hall.
    - intros Hall x Hx. apply in_map_iff in Hx as (a & <- & Ha).
      apply sameElements_setEqual. intros g. symmetry. now apply Hall. }
  split; [|split].
  - intros a Ha. specialize (Hin a Ha).
    split; [now apply toArray_groupSequence|].
    split; [intros G HG; now apply groupSequence_toArray|].
    now apply toArray_valid.
  - eexists. split; [now apply areEqual_valid|]. split; [exact Hiff|].
    rewrite Hiff. split.
    + intros Hall a G G0 Ha HG HG0.
      apply groupSequence_toArray in HG as [_ <-].
      apply groupSequence_toArray in HG0 as [_ <-]. now apply Hall.
    + intros Hall a Ha.
      apply (Hall a _ _ Ha); apply toArray_groupSequence.
      * now apply Hin.
      * destruct macAddresses as [|h t]; [destruct Ha|].
        apply Hin. now left.
  - intros Hlen. rewrite (areEqual_valid _ H).
    destruct macAddresses as [|a [|b l]]; try discriminate Hlen.
    cbn [map hd forallb]. now rewrite sameElements_refl.
Qed.

Lemma areEqual_set_equality_witness :
  toArray "ff-ee-dd-cc-bb-aa" = ["FF"; "EE"; "DD"; "CC"; "BB"; "AA"] /\
  areEqual ["AA:BB:CC:DD:EE:FF"; "ff-ee-dd-cc-bb-aa"] = Return true.
Proof.
  destruct (areEqual_set_equality ["AA:BB:CC:DD:EE:FF"; "ff-ee-dd-cc-bb-aa"])
    as (HA & (b & E & Hb & _) & _).
  - repeat constructor.
  - split.
    + destruct (HA "ff-ee-dd-cc-bb-aa") as (_ & U & _);
        [right; left; reflexivity|].
      apply U. exists "-"%char, ["ff"; "ee"; "dd"; "cc"; "bb"; "aa"].
      split; [right; reflexivity|]. split; [reflexivity|].
      split; [|split; reflexivity].
      repeat (apply Forall_cons;
              [apply group_pair; eexists (_, _);
               split; [reflexivity | split; reflexivity] |]).
      apply Forall_nil.
    + rewrite E. f_equal. apply Hb.
      intros a [<- | [<- | []]]; apply sameElements_setEqual; reflexivity.
Defined.

(** C9. With no argument both loops of [areEqual] run over nothing: the
    result is the initial [true] and nothing is thrown. *)
Theorem areEqual_no_argument : areEqual [] = Return true.
Proof. reflexivity. Qed.

(** ** Malformed strings *)

(** C8. A string that [isMacAddress] rejects makes [toBuffer] (whatever the
    buffer and the offset) and [reverseMacAddress] throw the invalid-format
    error, and makes [areEqual] throw it wherever the string stands among
    the arguments: the error names an argument that is invalid and its
    position, and they are the string itself and its own position when
    everything before it is valid.  No value is returned. *)
Theorem malformed_string_throws (s : string) :
  isMacAddress s = false ->
  (forall buf offset, toBuffer s buf offset = Throw (InvalidFormatError s None)) /\
  reverseMacAddress s = Throw (InvalidFormatError s None) /\
  (forall pre post,
     exists a i,
       areEqual (pre ++ s :: post) = Throw (InvalidFormatError a (Some i)) /\
       nth_error (pre ++ s :: post) i = Some a /\
       isMacAddress a = false /\
       (Forall (fun x => isMacAddress x = true) pre ->
        a = s /\ i = List.length pre)).
Proof.
  intros Hs. split; [|split].
  - intros buf offset. unfold toBuffer. now rewrite Hs.
  - unfold reverseMacAddress. now rewrite Hs.
  - intros pre post. unfold areEqual.
    destruct (first_invalid pre) as [Hpre | (p1 & t & p2 & -> & Hp1 & Ht)].
    + exists s, (List.length pre).
      rewrite (areEqual_convert_invalid pre s post 0 [] Hpre Hs).
      split; [reflexivity|]. split; [|split; [assumption | now intros _]].
      rewrite nth_error_app2, Nat.sub_diag by lia. reflexivity.
    + exists t, (List.length p1).
      rewrite <- app_assoc. cbn [app].
      rewrite (areEqual_convert_invalid p1 t _ 0 [] Hp1 Ht).
      split; [reflexivity|]. split; [|split; [assumption|]].
      * rewrite nth_error_app2, Nat.sub_diag by lia. reflexivity.
      * intros Hall. apply Forall_app in Hall as [_ Hall].
        inversion Hall; congruence.
Qed.

Lemma malformed_string_throws_witness :
  toBuffer "fff:00:00:00:00:00" None None =
    Throw (InvalidFormatError "fff:00:00:00:00:00" None) /\
  reverseMacAddress "fff:00:00:00:00:00" =
    Throw (InvalidFormatError "fff:00:00:00:00:00" None) /\
  exists a i,
    areEqual (["AA:AA:AA:AA:AA:AA"] ++ "fff:00:00:00:00:00" :: ["XX:XX"]) =
      Throw (InvalidFormatError a (Some i)) /\
    a = "fff:00:00:00:00:00" /\ i = 1%nat.
Proof.
  destruct (malformed_string_throws "fff:00:00:00:00:00" eq_refl)
    as (HB & HR & HE).
  split; [apply HB | split; [exact HR|]].
  destruct (HE ["AA:AA:AA:AA:AA:AA"] ["XX:XX"]) as (a & i & E & _ & _ & Hfirst).
  exists a, i. split; [exact E|].
  apply Hfirst. repeat constructor.
Defined.

(** ** Reversal *)

Lemma layout_valid (sep : ascii) (g : list (ascii * ascii)) :
  JS.isSeparator sep = true -> List.length g = 6%nat -> Forall hexBoth g ->
  isMacAddress (layout sep g) = true.
Proof.
  intros Hs Hlen Hg. apply isMacAddress_layout. now exists sep, g.
Qed.

Lemma join_pairs (g : list (ascii * ascii)) :
  JS.join ":" (map pairOf g) = layout ":" g.
Proof. reflexivity. Qed.

Lemma map_upper_twice (g : list (ascii * ascii)) :
  map upperPair (map upperPair g) = map upperPair g.
Proof.
  rewrite map_map. apply map_ext. intros p. apply upperPair_idempotent.
Qed.

Lemma rev_upper_twice (g : list (ascii * ascii)) :
  rev (map upperPair (rev (map upperPair g))) = map upperPair g.
Proof.
  now rewrite <- map_rev, rev_involutive, map_upper_twice.
Qed.

Lemma reverseMacAddress_layout (sep : ascii) (g : list (ascii * ascii)) :
  JS.isSeparator sep = true -> List.length g = 6%nat -> Forall hexBoth g ->
  reverseMacAddress (layout sep g) =
  Return (layout ":" (rev (map upperPair g))).
Proof.
  intros Hs Hlen Hg. unfold reverseMacAddress.
  rewrite (layout_valid sep g Hs Hlen Hg). cbn [negb].
  rewrite (toUpperCase_layout sep g Hs).
  rewrite split_layout;
    [ | assumption
      | rewrite <- length_zero_iff_nil, length_map; lia
      | now apply Forall_hexBoth_upper ].
  unfold constructMacAddress. cbv zeta.
  rewrite <- map_rev, join_pairs.
  rewrite toUpperCase_layout by reflexivity.
  now rewrite <- map_rev, map_upper_twice, map_rev.
Qed.

(** C6. On a valid address [reverseMacAddress] returns the groups of the
    upper-cased address ([toArray], the split on [:] or [-]) in reverse
    order joined by [:]: when the address reads as the groups [g1] .. [g6]
    joined by [:] or by [-], the result is [g6] .. [g1], with [a]..[f] in
    upper case, joined by [:].  The result is again a valid address;
    reversing it gives [g1] .. [g6] in upper case joined by [:], an address
    that [areEqual] finds equal to the original. *)
Theorem reverseMacAddress_involution (m : string) :
  isMacAddress m = true ->
  Spec.groupSequence m (toArray m) /\
  (forall G, Spec.groupSequence m G ->
     reverseMacAddress m = Return (String.concat ":" (rev G)) /\
     reverseMacAddress (String.concat ":" (rev G)) =
       Return (String.concat ":" G) /\
     areEqual [String.concat ":" G; m] = Return true) /\
  reverseMacAddress m = Return (JS.join ":" (rev (toArray m))) /\
  exists r rr,
    reverseMacAddress m = Return r /\
    reverseMacAddress r = Return rr /\
    areEqual [rr; m] = Return true.
Proof.
  intros H. pose proof (toArray_groupSequence m H) as HT.
  apply isMacAddress_layout in H as Hl.
  destruct Hl as (sep & g & -> & Hs & Hlen & Hg).
  pose proof (nonempty_of_length g Hlen) as Hne.
  pose proof (Forall_hexBoth_upper g Hg) as Hup.
  assert (Hrev : Forall hexBoth (rev (map upperPair g))).
  { apply Forall_forall. intros p Hp. apply in_rev in Hp.
    rewrite Forall_forall in Hup. now apply Hup. }
  assert (Hrlen : List.length (rev (map upperPair g)) = 6%nat)
    by now rewrite length_rev, length_map.
  pose proof (toArray_layout sep g Hs Hne Hg) as TA.
  pose proof (reverseMacAddress_layout sep g Hs Hlen Hg) as R1.
  assert (R2 : reverseMacAddress (layout ":" (rev (map upperPair g))) =
               Return (layout ":" (map upperPair g))).
  { rewrite (reverseMacAddress_layout ":" _ eq_refl Hrlen Hrev).
    now rewrite rev_upper_twice. }
  assert (EQ : areEqual [layout ":" (map upperPair g); layout sep g] =
               Return true).
  { assert (Hv : isMacAddress (layout ":" (map upperPair g)) = true).
    { apply layout_valid; [reflexivity | now rewrite length_map | assumption]. }
    rewrite areEqual_valid by (repeat constructor; assumption).
    cbn [hd map forallb].
    rewrite sameElements_refl.
    rewrite (toArray_layout ":" (map upperPair g) eq_refl);
      [ | rewrite <- length_zero_iff_nil, length_map; lia | assumption ].
    rewrite TA, map_upper_twice.
    now rewrite sameElements_refl. }
  split; [exact HT | split; [|split]].
  - intros G HG. apply groupSequence_toArray in HG as [_ <-].
    rewrite TA, <- (map_rev pairOf).
    change (String.concat ":" (map pairOf (rev (map upperPair g))))
      with (layout ":" (rev (map upperPair g))).
    change (String.concat ":" (map pairOf (map upperPair g)))
      with (layout ":" (map upperPair g)).
    split; [exact R1 | split; [exact R2 | exact EQ]].
  - rewrite R1, TA, <- (map_rev pairOf), join_pairs. reflexivity.
  - eexists. eexists. split; [exact R1 | split; [exact R2 | exact EQ]].
Qed.

Lemma reverseMacAddress_involution_witness :
  reverseMacAddress "aa-bb-cc-dd-ee-ff" = Return "FF:EE:DD:CC:BB:AA" /\
  reverseMacAddress "FF:EE:DD:CC:BB:AA" = Return "AA:BB:CC:DD:EE:FF" /\
  areEqual ["AA:BB:CC:DD:EE:FF"; "aa-bb-cc-dd-ee-ff"] = Return true.
Proof.
  destruct (reverseMacAddress_involution "aa-bb-cc-dd-ee-ff" eq_refl)
    as (_ & U & _).
  apply (U ["AA"; "BB"; "CC"; "DD"; "EE"; "FF"]).
  exists "-"%char, ["aa"; "bb"; "cc"; "dd"; "ee"; "ff"].
  split; [right; reflexivity|]. split; [reflexivity|].
  split; [|split; reflexivity].
  repeat (apply Forall_cons;
          [apply group_pair; eexists (_, _);
           split; [reflexivity | split; reflexivity] |]).
  apply Forall_nil.
Defined.

(** ** Bytes and their two hexadecimal digits *)

Lemma unhex_digitValue (c : ascii) : Buf.unhex c = Spec.digitValue c.
Proof. each_ascii c; reflexivity. Qed.

Lemma unhex_hexClass (c : ascii) :
  RegEx.hexClass c = true -> exists x, Buf.unhex c = Some x /\ (x < 16)%N.
Proof.
  each_ascii c; intros H; try discriminate H;
    eexists; (split; [reflexivity | reflexivity]).
Qed.

Lemma hexDecode_pair (p : ascii * ascii) (r : string) :
  hexBoth p ->
  Buf.hexDecode (pairOf p ++ r) = octet p :: Buf.hexDecode r /\
  Some (Byte.to_N (octet p)) = Spec.groupValue (pairOf p).
Proof.
  destruct p as [a b]. intros [Ha Hb]. cbn [fst snd] in *.
  destruct (unhex_hexClass a Ha) as (x & Hx & Bx).
  destruct (unhex_hexClass b Hb) as (y & Hy & By).
  unfold pairOf, pair, octet, Spec.groupValue.
  cbn [append Buf.hexDecode fst snd].
  rewrite <- !unhex_digitValue, Hx, Hy.
  destruct (Byte.of_N (16 * x + y)) as [v|] eqn:E.
  - split; [reflexivity|]. f_equal. now apply Byte.to_of_N.
  - apply Byte.of_N_None_iff in E. lia.
Qed.

Lemma digitsOf_hexBoth (v : byte) : hexBoth (digitsOf v).
Proof. destruct v; split; reflexivity. Qed.

Lemma octet_digitsOf (v : byte) : octet (digitsOf v) = v.
Proof. destruct v; reflexivity. Qed.

Lemma hex2_digitsOf (v : byte) : Spec.hex2 v = pairOf (digitsOf v).
Proof. reflexivity. Qed.

Lemma renderByte_upper (v : byte) :
  JS.toUpperCase (renderByte v) = Spec.hex2 v.
Proof. destruct v; reflexivity. Qed.

(** ** [toBuffer] *)

Lemma stripSeparators_pair (p : ascii * ascii) (r : string) :
  hexBoth p ->
  JS.stripSeparators (pairOf p ++ r) = (pairOf p ++ JS.stripSeparators r)%string.
Proof.
  destruct p as [a b]. intros [Ha Hb]. cbn [fst snd] in *.
  unfold pairOf, pair. cbn [append JS.stripSeparators fst snd].
  now rewrite (hexClass_not_separator _ Ha), (hexClass_not_separator _ Hb).
Qed.

Lemma stripSeparators_layout (sep : ascii) (g : list (ascii * ascii)) :
  JS.isSeparator sep = true -> Forall hexBoth g ->
  JS.stripSeparators (layout sep g) = String.concat "" (map pairOf g).
Proof.
  intros Hs Hg. unfold layout.
  induction Hg as [|p g Hp Hg IH]; [reflexivity|].
  destruct g as [|q g].
  - cbn [map String.concat].
    assert (A : pairOf p = (pairOf p ++ "")%string) by now destruct p.
    rewrite A at 1. rewrite (stripSeparators_pair p "" Hp).
    cbn [JS.stripSeparators]. now rewrite <- A.
  - cbn [map] in *.
    remember (pairOf q :: map pairOf g) as tl eqn:Etl.
    assert (E : forall s, String.concat s (pairOf p :: tl)
                = (pairOf p ++ s ++ String.concat s tl)%string)
      by (intros s; subst tl; reflexivity).
    rewrite !E, (stripSeparators_pair p _ Hp).
    cbn [append JS.stripSeparators]. now rewrite Hs, IH.
Qed.

Lemma hexDecode_pairs (g : list (ascii * ascii)) :
  Forall hexBoth g ->
  Buf.hexDecode (String.concat "" (map pairOf g)) = map octet g.
Proof.
  induction 1 as [|p g Hp Hg IH]; [reflexivity|].
  destruct g as [|q g].
  - cbn [map String.concat].
    destruct (hexDecode_pair p "" Hp) as [E _].
    assert (A : (pairOf p ++ "")%string = pairOf p) by now destruct p.
    rewrite A in E. rewrite E. reflexivity.
  - cbn [map] in *.
    remember (pairOf q :: map pairOf g) as tl eqn:Etl.
    assert (E : String.concat "" (pairOf p :: tl)
                = (pairOf p ++ String.concat "" tl)%string)
      by (subst tl; reflexivity).
    rewrite E. destruct (hexDecode_pair p (String.concat "" tl) Hp) as [D _].
    now rewrite D, IH.
Qed.

Lemma write_fresh (s : string) (bytes : list byte) :
  Buf.hexDecode s = bytes -> List.length bytes = 6%nat ->
  Buf.write (Buf.alloc (Z.to_nat bufferLength)) s 0 bufferLength = Return bytes.
Proof.
  intros E Hlen. unfold Buf.write. rewrite E.
  destruct bytes as [|v1 [|v2 [|v3 [|v4 [|v5 [|v6 [|]]]]]]];
    try discriminate Hlen.
  reflexivity.
Qed.

(** Without a target the decoded bytes are written into a fresh buffer. *)
Lemma toBuffer_fresh_layout (sep : ascii) (g : list (ascii * ascii)) :
  JS.isSeparator sep = true -> List.length g = 6%nat -> Forall hexBoth g ->
  toBuffer (layout sep g) None None = Return (map octet g).
Proof.
  intros Hs Hlen Hg. unfold toBuffer.
  rewrite (layout_valid sep g Hs Hlen Hg). cbn [negb JS.bitwiseNotNot].
  change (validateBufferLength (Buf.alloc (Z.to_nat bufferLength)) 0)
    with (@Return unit tt).
  cbn [bind]. apply write_fresh.
  - rewrite (stripSeparators_layout sep g Hs Hg). now apply hexDecode_pairs.
  - now rewrite length_map.
Qed.

(** With a target that passes the length check nothing is written: the
    target comes back as it was. *)
Lemma toBuffer_target_unchanged (mac : string) (target : Buffer)
    (offset : option Z) :
  isMacAddress mac = true ->
  JS.bitwiseNotNot offset + bufferLength <= Z.of_nat (List.length target) ->
  toBuffer mac (Some target) offset = Return target.
Proof.
  intros Hm Hlen. unfold toBuffer, validateBufferLength. rewrite Hm.
  cbn [negb].
  destruct (Z.ltb_spec (Z.of_nat (List.length target))
              (JS.bitwiseNotNot offset + bufferLength)); [lia | reflexivity].
Qed.

Lemma groupValues_layout (g : list (ascii * ascii)) :
  Forall hexBoth g ->
  map (fun v => Some (Byte.to_N v)) (map octet g) =
  map Spec.groupValue (map pairOf g).
Proof.
  induction 1 as [|p g Hp _ IH]; [reflexivity|].
  cbn [map]. rewrite IH.
  destruct (hexDecode_pair p "" Hp) as [_ E]. now rewrite E.
Qed.

Lemma groupValue_upper (p : ascii * ascii) :
  Spec.groupValue (pairOf (upperPair p)) = Spec.groupValue (pairOf p).
Proof.
  destruct p as [a b]. unfold Spec.groupValue, pairOf, pair, upperPair.
  cbn [fst snd]. unfold Spec.digitValue.
  now rewrite !toUpperChar_idempotent.
Qed.

(** C1. On the valid address [AA:BB:CC:DD:EE:FF], a 6-byte target of zeros
    and offset 0 (so that [target.length >= offset + 6]) [toBuffer] returns
    the target with its 6 zeros: the decoded bytes are not written.  The
    same call without a target returns the decoded bytes. *)
Theorem toBuffer_target_not_written :
  isMacAddress "AA:BB:CC:DD:EE:FF" = true /\
  toBuffer "AA:BB:CC:DD:EE:FF" (Some [x00; x00; x00; x00; x00; x00]) (Some 0)
    = Return [x00; x00; x00; x00; x00; x00] /\
  toBuffer "AA:BB:CC:DD:EE:FF" None (Some 0)
    = Return [xaa; xbb; xcc; xdd; xee; xff].
Proof. repeat split; reflexivity. Qed.

(** C2, as the claim states it, fails: without a target the buffer returned
    for [AA:BB:CC:DD:EE:FF] holds the decoded bytes, not the zeros it was
    allocated with. *)
Lemma toBuffer_fresh_not_zero :
  isMacAddress "AA:BB:CC:DD:EE:FF" = true /\
  toBuffer "AA:BB:CC:DD:EE:FF" None None = Return [xaa; xbb; xcc; xdd; xee; xff] /\
  toBuffer "AA:BB:CC:DD:EE:FF" None None <> Return (Buf.alloc 6).
Proof. repeat split; try reflexivity. discriminate. Qed.

(** C2, amended. Without a target [toBuffer] allocates 6 zero bytes, the
    length check on them succeeds at the default offset 0, and the buffer
    returned holds the 6 bytes decoded from the address: byte [i] is the
    value of group [i], which is what the hex digits left after stripping
    the separators decode to. *)
Theorem toBuffer_fresh_decoded (mac : string) :
  isMacAddress mac = true ->
  validateBufferLength (Buf.alloc 6) (JS.bitwiseNotNot None) = Return tt /\
  exists bytes,
    toBuffer mac None None = Return bytes /\
    List.length bytes = 6%nat /\
    bytes = Buf.hexDecode (JS.stripSeparators mac) /\
    map (fun v => Some (Byte.to_N v)) bytes = map Spec.groupValue (toArray mac).
Proof.
  intros H. split; [reflexivity|].
  apply isMacAddress_layout in H as (sep & g & -> & Hs & Hlen & Hg).
  exists (map octet g). split; [|split; [|split]].
  - now apply toBuffer_fresh_layout.
  - now rewrite length_map.
  - rewrite (stripSeparators_layout sep g Hs Hg). symmetry.
    now apply hexDecode_pairs.
  - rewrite (toArray_layout sep g Hs (nonempty_of_length g Hlen) Hg).
    rewrite (groupValues_layout g Hg), !map_map.
    apply map_ext. intros p. symmetry. apply groupValue_upper.
Qed.

Lemma toBuffer_fresh_decoded_witness :
  exists bytes,
    toBuffer "1c:91:76:89:60:94" None None = Return bytes /\
    List.length bytes = 6%nat /\
    bytes = Buf.hexDecode (JS.stripSeparators "1c:91:76:89:60:94") /\
    map (fun v => Some (Byte.to_N v)) bytes =
    map Spec.groupValue (toArray "1c:91:76:89:60:94").
Proof.
  apply (toBuffer_fresh_decoded "1c:91:76:89:60:94"). reflexivity.
Defined.

(** ** [toString] *)

Lemma readUInt8_inside (buf : Buffer) (i : Z) :
  0 <= i < Z.of_nat (List.length buf) ->
  Buf.readUInt8 buf i = Return (Byte.to_N (nth (Z.to_nat i) buf x00)).
Proof.
  intros H. unfold Buf.readUInt8.
  destruct (Z.ltb_spec i 0); [lia|].
  destruct (Z.leb_spec (Z.of_nat (List.length buf)) i); [lia | reflexivity].
Qed.

Lemma readUInt8_negative (buf : Buffer) (i : Z) :
  i < 0 -> Buf.readUInt8 buf i = Throw RangeError.
Proof.
  intros H. unfold Buf.readUInt8.
  destruct (Z.ltb_spec i 0); [reflexivity | lia].
Qed.

Lemma readUInt8_throws (buf : Buffer) (i : Z) (e : Error) :
  Buf.readUInt8 buf i = Throw e -> e = RangeError.
Proof.
  unfold Buf.readUInt8.
  destruct ((i <? 0) || (Z.of_nat (List.length buf) <=? i));
    [now intros [= <-] | discriminate].
Qed.

Lemma skipn_nth {A : Type} (d : A) (l : list A) (k : nat) :
  (k < List.length l)%nat -> skipn k l = nth k l d :: skipn (S k) l.
Proof.
  revert k. induction l as [|x l IH]; intros k Hk; simpl in Hk; [lia|].
  destruct k as [|k]; [reflexivity|].
  cbn [nth]. change (skipn (S k) (x :: l)) with (skipn k l).
  change (skipn (S (S k)) (x :: l)) with (skipn (S k) l).
  apply IH. lia.
Qed.

(** The loop on indices that all lie inside the buffer. *)
Lemma toString_loop_inside (buf : Buffer) (t : Z) (n : nat) (i : Z)
    (values : list string) :
  0 <= t + i -> t + i + Z.of_nat n <= Z.of_nat (List.length buf) ->
  toString_loop buf t n i values =
  Return (values ++ map renderByte (firstn n (skipn (Z.to_nat (t + i)) buf))).
Proof.
  revert i values. induction n as [|n IH]; intros i values Hlo Hhi.
  - cbn [toString_loop firstn map]. now rewrite app_nil_r.
  - cbn [toString_loop]. rewrite readUInt8_inside by lia. cbn [bind].
    rewrite IH by lia.
    rewrite (skipn_nth x00 buf (Z.to_nat (t + i))) by lia.
    cbn [firstn map]. rewrite <- app_assoc. cbn [app].
    replace (Z.to_nat (t + (i + 1))) with (S (Z.to_nat (t + i))) by lia.
    reflexivity.
Qed.

(** The loop never throws anything but what [readUInt8] throws. *)
Lemma toString_loop_throws (buf : Buffer) (t : Z) (n : nat) (i : Z)
    (values : list string) (e : Error) :
  toString_loop buf t n i values = Throw e -> e = RangeError.
Proof.
  revert i values. induction n as [|n IH]; intros i values; cbn [toString_loop].
  - discriminate.
  - destruct (Buf.readUInt8 buf (t + i)) as [v|e'] eqn:R; cbn [bind].
    + apply IH.
    + intros [= <-]. now apply readUInt8_throws in R.
Qed.

Lemma validateBufferLength_spec (buf : Buffer) (t : Z) :
  (Z.of_nat (List.length buf) < t + 6 /\
   validateBufferLength buf t = Throw (BufferTooSmallError t (List.length buf))) \/
  (t + 6 <= Z.of_nat (List.length buf) /\
   validateBufferLength buf t = Return tt).
Proof.
  unfold validateBufferLength, bufferLength.
  destruct (Z.ltb_spec (Z.of_nat (List.length buf)) (t + 6)); [left | right];
    now split.
Qed.

Lemma toString_inside (buf : Buffer) (offset : option Z)
    (separator : option string) :
  0 <= JS.bitwiseNotNot offset ->
  JS.bitwiseNotNot offset + 6 <= Z.of_nat (List.length buf) ->
  toString buf offset separator =
  Return (constructMacAddress
            (map renderByte
               (firstn 6 (skipn (Z.to_nat (JS.bitwiseNotNot offset)) buf)))
            separator).
Proof.
  intros Hlo Hhi. unfold toString.
  destruct (validateBufferLength_spec buf (JS.bitwiseNotNot offset))
    as [[Hlt _] | [_ ->]]; [lia|].
  cbn [bind]. change (Z.to_nat bufferLength) with 6%nat.
  rewrite toString_loop_inside by lia.
  cbn [bind app]. now rewrite Z.add_0_r.
Qed.

Lemma firstn_skipn_whole {A : Type} (l : list A) :
  firstn (List.length l) (skipn 0 l) = l.
Proof. cbn [skipn]. apply firstn_all. Qed.

Lemma concat_hex2 (b : Buffer) :
  String.concat ":" (map Spec.hex2 b) = layout ":" (map digitsOf b).
Proof. unfold layout. now rewrite map_map. Qed.

(** C3. For a buffer [b] of 6 bytes [toString b] is the 6 bytes, each as 2
    upper-case hexadecimal digits with a leading zero where needed, joined
    by [:]; [toBuffer] of that string gives back [b], byte for byte.  On
    the bytes AA BB CC DD EE FF the string is [AA:BB:CC:DD:EE:FF]. *)
Theorem toString_toBuffer_roundtrip (b : Buffer) :
  List.length b = 6%nat ->
  toString b None None = Return (String.concat ":" (map Spec.hex2 b)) /\
  (exists s, toString b None None = Return s /\
             toBuffer s None None = Return b) /\
  toString [xaa; xbb; xcc; xdd; xee; xff] None None = Return "AA:BB:CC:DD:EE:FF".
Proof.
  intros Hlen.
  assert (E : toString b None None = Return (String.concat ":" (map Spec.hex2 b))).
  { rewrite toString_inside by (cbn [JS.bitwiseNotNot]; lia).
    cbn [JS.bitwiseNotNot]. change (Z.to_nat 0) with O.
    rewrite <- Hlen at 1. rewrite firstn_skipn_whole.
    unfold constructMacAddress, JS.join.
    rewrite toUpperCase_concat, map_map.
    f_equal. f_equal. apply map_ext. intros v. apply renderByte_upper. }
  split; [exact E | split; [|reflexivity]].
  exists (String.concat ":" (map Spec.hex2 b)). split; [exact E|].
  rewrite concat_hex2, toBuffer_fresh_layout.
  - rewrite map_map. f_equal. rewrite <- (map_id b) at 2.
    apply map_ext. intros v. apply octet_digitsOf.
  - reflexivity.
  - now rewrite length_map.
  - apply Forall_forall. intros p Hp. apply in_map_iff in Hp as (v & <- & _).
    apply digitsOf_hexBoth.
Qed.

Lemma toString_toBuffer_roundtrip_witness :
  toString [x00; x1c; x91; x0a; xf0; xff] None None = Return "00:1C:91:0A:F0:FF" /\
  exists s, toString [x00; x1c; x91; x0a; xf0; xff] None None = Return s /\
            toBuffer s None None = Return [x00; x1c; x91; x0a; xf0; xff].
Proof.
  destruct (toString_toBuffer_roundtrip [x00; x1c; x91; x0a; xf0; xff] eq_refl)
    as (E & R & _).
  split; [exact E | exact R].
Defined.

(** ** The length guard *)

Lemma toInt32_inside (x : Z) :
  - 2 ^ 31 <= x < 2 ^ 31 -> JS.toInt32 x = x.
Proof.
  intros H. unfold JS.toInt32.
  rewrite Z.mod_small by lia. lia.
Qed.

(** C7, as the claim states it, fails: [~~] brings the offset 2^32 back to
    0, so a 6-byte buffer, whose length is less than that offset plus 6,
    passes the guard of both functions. *)
Lemma guard_wraps_offset :
  Z.of_nat (List.length [x00; x00; x00; x00; x00; x00]) < 4294967296 + 6 /\
  toString [x00; x00; x00; x00; x00; x00] (Some 4294967296) None
    = Return "00:00:00:00:00:00" /\
  toBuffer "AA:BB:CC:DD:EE:FF" (Some [x00; x00; x00; x00; x00; x00])
    (Some 4294967296) = Return [x00; x00; x00; x00; x00; x00].
Proof. repeat split; reflexivity. Qed.

(** C7, amended. With [t] the offset as [~~] converts it (0 when the offset
    is left out, the offset itself when it is an integer from -2^31 up to
    2^31 - 1), [toBuffer] on a valid address and a supplied target, and
    [toString], throw the buffer-too-small error exactly when the length of
    the buffer is less than [t + 6]; the outcome is then that exception,
    carrying [t] and the length, and no value. *)
Theorem guard_throws_exactly (mac : string) (target buf : Buffer)
    (offset : option Z) (separator : option string) :
  isMacAddress mac = true ->
  let t := JS.bitwiseNotNot offset in
  (throwsBufferTooSmall (toBuffer mac (Some target) offset) <->
   Z.of_nat (List.length target) < t + 6) /\
  (throwsBufferTooSmall (toString buf offset separator) <->
   Z.of_nat (List.length buf) < t + 6) /\
  (Z.of_nat (List.length target) < t + 6 ->
   toBuffer mac (Some target) offset =
   Throw (BufferTooSmallError t (List.length target))) /\
  (Z.of_nat (List.length buf) < t + 6 ->
   toString buf offset separator =
   Throw (BufferTooSmallError t (List.length buf))) /\
  (offset = None -> t = 0) /\
  (forall x, offset = Some x -> - 2 ^ 31 <= x < 2 ^ 31 -> t = x).
Proof.
  intros Hm t.
  assert (HB : Z.of_nat (List.length target) < t + 6 ->
               toBuffer mac (Some target) offset =
               Throw (BufferTooSmallError t (List.length target))).
  { intros Hlt. unfold toBuffer. rewrite Hm. cbn [negb]. fold t.
    destruct (validateBufferLength_spec target t) as [[_ ->] | [Hge _]];
      [reflexivity | lia]. }
  assert (HS : Z.of_nat (List.length buf) < t + 6 ->
               toString buf offset separator =
               Throw (BufferTooSmallError t (List.length buf))).
  { intros Hlt. unfold toString. fold t.
    destruct (validateBufferLength_spec buf t) as [[_ ->] | [Hge _]];
      [reflexivity | lia]. }
  split; [|split; [|split; [exact HB | split; [exact HS | split]]]].
  - split.
    + intros Hthrow.
      destruct (Z.lt_ge_cases (Z.of_nat (List.length target)) (t + 6))
        as [Hlt | Hge]; [exact Hlt|].
      rewrite toBuffer_target_unchanged in Hthrow;
        [destruct Hthrow | assumption | unfold bufferLength; fold t; lia].
    + intros Hlt. rewrite (HB Hlt). exact I.
  - split.
    + intros Hthrow.
      destruct (Z.lt_ge_cases (Z.of_nat (List.length buf)) (t + 6))
        as [Hlt | Hge]; [exact Hlt|].
      exfalso. unfold toString in Hthrow. fold t in Hthrow.
      destruct (validateBufferLength_spec buf t) as [[Hlt _] | [_ E]]; [lia|].
      rewrite E in Hthrow. cbn [bind] in Hthrow.
      destruct (toString_loop buf t (Z.to_nat bufferLength) 0 [])
        as [values | e] eqn:L; cbn [bind] in Hthrow; [exact Hthrow|].
      apply toString_loop_throws in L. subst e. exact Hthrow.
    + intros Hlt. rewrite (HS Hlt). exact I.
  - intros ->. reflexivity.
  - intros x -> Hx. subst t. cbn [JS.bitwiseNotNot]. now apply toInt32_inside.
Qed.

(** A 5-byte buffer at offset 0 fails for both functions. *)
Lemma guard_throws_exactly_witness :
  toBuffer "AA:BB:CC:DD:EE:FF" (Some [x00; x00; x00; x00; x00]) (Some 0) =
    Throw (BufferTooSmallError 0 5) /\
  toString [x00; x00; x00; x00; x00] (Some 0) None =
    Throw (BufferTooSmallError 0 5).
Proof.
  destruct (guard_throws_exactly "AA:BB:CC:DD:EE:FF"
              [x00; x00; x00; x00; x00] [x00; x00; x00; x00; x00]
              (Some 0) None eq_refl) as (_ & _ & HB & HS & _).
  split; [apply HB | apply HS]; reflexivity.
Defined.

(** C10. The guard looks at [~~offset + 6] only, so a negative offset that
    leaves room for 6 bytes before the end passes it though the 6 positions
    start before the buffer: [toString] then reads at the negative index
    and the outcome is the range error of [readUInt8], not the
    buffer-too-small error; so it is for a 6-byte buffer at offset -1.
    [toBuffer] without a target passes the guard in the same way and fails
    in the write. *)
Theorem negative_offset_passes_guard (buf : Buffer) (offset : option Z)
    (separator : option string) :
  JS.bitwiseNotNot offset < 0 ->
  JS.bitwiseNotNot offset + 6 <= Z.of_nat (List.length buf) ->
  validateBufferLength buf (JS.bitwiseNotNot offset) = Return tt /\
  Buf.readUInt8 buf (JS.bitwiseNotNot offset + 0) = Throw RangeError /\
  toString buf offset separator = Throw RangeError /\
  ~ throwsBufferTooSmall (toString buf offset separator) /\
  JS.bitwiseNotNot (Some (-1)) = -1 /\
  validateBufferLength (Buf.alloc 6) (JS.bitwiseNotNot (Some (-1))) = Return tt /\
  toBuffer "AA:BB:CC:DD:EE:FF" None (Some (-1)) = Throw RangeError.
Proof.
  intros Hneg Hlen.
  destruct (validateBufferLength_spec buf (JS.bitwiseNotNot offset))
    as [[Hlt _] | [_ E]]; [lia|].
  assert (R : Buf.readUInt8 buf (JS.bitwiseNotNot offset + 0) = Throw RangeError)
    by (apply readUInt8_negative; lia).
  assert (T : toString buf offset separator = Throw RangeError).
  { unfold toString. rewrite E. cbn [bind].
    change (Z.to_nat bufferLength) with 6%nat. cbn [toString_loop].
    now rewrite R. }
  repeat split; try assumption; try reflexivity.
  rewrite T. intros [].
Qed.

Lemma negative_offset_passes_guard_witness :
  validateBufferLength [xaa; xbb; xcc; xdd; xee; xff] (JS.bitwiseNotNot (Some (-1)))
    = Return tt /\
  toString [xaa; xbb; xcc; xdd; xee; xff] (Some (-1)) None = Throw RangeError.
Proof.
  destruct (negative_offset_passes_guard [xaa; xbb; xcc; xdd; xee; xff]
              (Some (-1)) None) as (V & _ & T & _).
  - reflexivity.
  - cbn. lia.
  - split; [exact V | exact T].
Defined.


(** * Further properties of the functions *)

(** ** [toArray] on any string *)

Lemma isSeparator_count (c : ascii) :
  ((if Ascii.eqb c ":" then 1 else 0) + (if Ascii.eqb c "-" then 1 else 0))%nat
  = if JS.isSeparator c then 1%nat else 0%nat.
Proof. each_ascii c; reflexivity. Qed.

Lemma toUpperChar_isSeparator (c : ascii) :
  JS.isSeparator (JS.toUpperChar c) = JS.isSeparator c.
Proof. each_ascii c; reflexivity. Qed.

Lemma separators_String (c : ascii) (s : string) :
  separators (String c s) =
  ((if JS.isSeparator c then 1 else 0) + separators s)%nat.
Proof.
  unfold separators. cbn [Spec.occurrences].
  rewrite <- isSeparator_count. lia.
Qed.

Lemma separators_toUpperCase (s : string) :
  separators (JS.toUpperCase s) = separators s.
Proof.
  induction s as [|c s IH]; [reflexivity|].
  cbn [JS.toUpperCase]. rewrite !separators_String, IH.
  now rewrite toUpperChar_isSeparator.
Qed.

Lemma split_nonempty (s : string) : JS.split s <> [].
Proof.
  destruct s as [|c s]; cbn [JS.split]; [discriminate|].
  destruct (JS.isSeparator c); [discriminate|].
  destruct (JS.split s); discriminate.
Qed.

Lemma split_length (s : string) :
  List.length (JS.split s) = S (separators s).
Proof.
  induction s as [|c s IH]; [reflexivity|].
  rewrite separators_String. cbn [JS.split].
  destruct (JS.isSeparator c).
  - cbn [List.length]. now rewrite IH.
  - destruct (JS.split s) as [|g gs] eqn:E; [discriminate IH|].
    cbn [List.length] in *. lia.
Qed.

Lemma split_pieces (s : string) :
  Forall (fun g => separators g = 0%nat) (JS.split s).
Proof.
  induction s as [|c s IH]; [repeat constructor|].
  cbn [JS.split]. destruct (JS.isSeparator c) eqn:Hc.
  - constructor; [reflexivity | assumption].
  - destruct (JS.split s) as [|g gs]; [repeat constructor|].
    + rewrite separators_String, Hc. reflexivity.
    + inversion IH as [|? ? Hg Hgs]; subst.
      constructor; [|assumption].
      rewrite separators_String, Hc. exact Hg.
Qed.

Lemma split_upper (s : string) :
  JS.toUpperCase s = s ->
  Forall (fun g => JS.toUpperCase g = g) (JS.split s).
Proof.
  induction s as [|c s IH]; intros H; [repeat constructor|].
  cbn [JS.toUpperCase] in H. injection H as Hc Hs.
  specialize (IH Hs). cbn [JS.split]. destruct (JS.isSeparator c).
  - constructor; [reflexivity | assumption].
  - destruct (JS.split s) as [|g gs].
    + repeat constructor. cbn [JS.toUpperCase]. now rewrite Hc.
    + inversion IH as [|? ? Hg Hgs]; subst.
      constructor; [|assumption].
      cbn [JS.toUpperCase]. now rewrite Hc, Hg.
Qed.

Lemma split_concat (s : string) :
  String.concat "" (JS.split s) = JS.stripSeparators s.
Proof.
  induction s as [|c s IH]; [reflexivity|].
  cbn [JS.split JS.stripSeparators]. destruct (JS.isSeparator c).
  - rewrite <- IH. destruct (JS.split s) as [|g gs] eqn:E.
    + now apply split_nonempty in E.
    + reflexivity.
  - rewrite <- IH. destruct (JS.split s) as [|g [|h gs]]; reflexivity.
Qed.

(** X1. [toArray] does not validate.  On any string (of ASCII characters)
    it returns one piece more than the string has separator characters, so
    never an empty array; no piece holds a separator, every piece is in
    upper case, and the pieces put end to end are the upper-cased string
    without its separators. *)
Theorem toArray_any_string (s : string) :
  isAsciiString s = true ->
  List.length (toArray s) = S (separators s) /\
  Forall (fun g => separators g = 0%nat /\ JS.toUpperCase g = g) (toArray s) /\
  String.concat "" (toArray s) = JS.stripSeparators (JS.toUpperCase s).
Proof.
  intros _. unfold toArray. split; [|split].
  - now rewrite split_length, separators_toUpperCase.
  - pose proof (split_pieces (JS.toUpperCase s)) as P.
    pose proof (split_upper _ (toUpperCase_idempotent s)) as U.
    rewrite Forall_forall in *. intros g Hg. split; auto.
  - apply split_concat.
Qed.

Lemma toArray_any_string_witness :
  List.length (toArray "a:b-c::") = 5%nat /\
  toArray "" = [""] /\
  toArray "a:b-c::" = ["A"; "B"; "C"; ""; ""].
Proof.
  split; [|split; reflexivity].
  apply (proj1 (toArray_any_string "a:b-c::" eq_refl)).
Defined.

(** ** [constructMacAddress] *)

Lemma constructMacAddress_join (array : list string) (separator : option string) :
  constructMacAddress array separator =
  JS.join (JS.toUpperCase (separatorOrDefault separator))
    (map JS.toUpperCase array).
Proof.
  unfold constructMacAddress, JS.join.
  destruct separator as [[|c s]|]; apply toUpperCase_concat.
Qed.

Lemma macSeparator_char (separator : option string) :
  macSeparator separator ->
  exists c, separatorOrDefault separator = String c EmptyString /\
            JS.isSeparator c = true.
Proof.
  intros [-> | [-> | ->]]; eexists; split; reflexivity.
Qed.

Lemma constructMacAddress_pairs (g : list (ascii * ascii))
    (separator : option string) (c : ascii) :
  separatorOrDefault separator = String c EmptyString ->
  JS.isSeparator c = true ->
  constructMacAddress (map pairOf g) separator = layout c (map upperPair g).
Proof.
  intros E Hc. rewrite constructMacAddress_join, E.
  cbn [JS.toUpperCase]. rewrite (toUpperChar_separator c Hc).
  unfold JS.join, layout. rewrite !map_map. reflexivity.
Qed.

(** X2. An empty separator counts as none, and both mean [:]; the
    separator is upper-cased together with the elements, so the result is
    the upper-cased elements joined by the upper-cased separator, a string
    that upper-casing leaves as it is.  (Elements and separator of ASCII
    characters.) *)
Theorem constructMacAddress_upper_join (array : list string)
    (separator : option string) :
  Forall (fun g => isAsciiString g = true) array ->
  isAsciiString (separatorOrDefault separator) = true ->
  constructMacAddress array separator =
    JS.join (JS.toUpperCase (separatorOrDefault separator))
      (map JS.toUpperCase array) /\
  JS.toUpperCase (constructMacAddress array separator) =
    constructMacAddress array separator /\
  constructMacAddress array (Some EmptyString) = constructMacAddress array None.
Proof.
  intros _ _. split; [apply constructMacAddress_join | split].
  - unfold constructMacAddress. apply toUpperCase_idempotent.
  - reflexivity.
Qed.

Lemma constructMacAddress_upper_join_witness :
  constructMacAddress ["0a"; "ff"] (Some "x") =
    JS.join (JS.toUpperCase "x") (map JS.toUpperCase ["0a"; "ff"]) /\
  constructMacAddress ["0a"; "ff"] (Some "x") = "0AXFF".
Proof.
  split; [|reflexivity].
  apply (constructMacAddress_upper_join ["0a"; "ff"] (Some "x")).
  - repeat constructor.
  - reflexivity.
Defined.

(** X3. The groups [toArray] gives for a valid address, joined again by
    [constructMacAddress] with no separator, with [:] or with [-], make a
    valid address whose groups are the same ones: array to string to array
    is the identity. *)
Theorem constructMacAddress_toArray_roundtrip (m : string)
    (separator : option string) :
  isMacAddress m = true -> macSeparator separator ->
  isMacAddress (constructMacAddress (toArray m) separator) = true /\
  toArray (constructMacAddress (toArray m) separator) = toArray m.
Proof.
  intros H Hsep. apply isMacAddress_layout in H as (s & g & -> & Hs & Hlen & Hg).
  destruct (macSeparator_char separator Hsep) as (c & Ec & Hc).
  pose proof (nonempty_of_length g Hlen) as Hne.
  pose proof (Forall_hexBoth_upper g Hg) as Hup.
  rewrite (toArray_layout s g Hs Hne Hg).
  rewrite (constructMacAddress_pairs _ separator c Ec Hc), map_upper_twice.
  assert (Hlen' : List.length (map upperPair g) = 6%nat) by now rewrite length_map.
  split.
  - now apply layout_valid.
  - rewrite (toArray_layout c _ Hc (nonempty_of_length _ Hlen') Hup).
    now rewrite map_upper_twice.
Qed.

Lemma constructMacAddress_toArray_roundtrip_witness :
  isMacAddress (constructMacAddress (toArray "1c:91:76:89:60:94") (Some "-")) = true /\
  toArray (constructMacAddress (toArray "1c:91:76:89:60:94") (Some "-")) =
  toArray "1c:91:76:89:60:94".
Proof.
  apply (constructMacAddress_toArray_roundtrip "1c:91:76:89:60:94" (Some "-")).
  - reflexivity.
  - right. right. reflexivity.
Defined.

(** ** [toString] and [toBuffer] across offsets and separators *)

Lemma unhex_upper_digit (c : ascii) (x : N) :
  Buf.unhex c = Some x ->
  nth (N.to_nat x) Spec.upperDigits "0"%char = JS.toUpperChar c.
Proof.
  each_ascii c; intros H; try discriminate H;
    injection H as <-; reflexivity.
Qed.

Lemma digitsOf_octet (p : ascii * ascii) :
  hexBoth p -> digitsOf (octet p) = upperPair p.
Proof.
  destruct p as [a b]. intros [Ha Hb]. cbn [fst snd] in *.
  destruct (unhex_hexClass a Ha) as (x & Hx & Bx).
  destruct (unhex_hexClass b Hb) as (y & Hy & By).
  unfold octet, digitsOf, upperPair. cbn [fst snd]. rewrite Hx, Hy.
  destruct (Byte.of_N (16 * x + y)) as [v|] eqn:E;
    [|apply Byte.of_N_None_iff in E; lia].
  apply Byte.to_of_N in E. rewrite E.
  change 16%nat with (N.to_nat 16).
  rewrite <- N2Nat.inj_div, <- N2Nat.inj_mod.
  assert (D : ((16 * x + y) / 16 = x)%N)
    by (symmetry; apply (N.div_unique _ 16 x y); lia).
  assert (M : ((16 * x + y) mod 16 = y)%N)
    by (symmetry; apply (N.mod_unique _ 16 x y); lia).
  rewrite D, M.
  now rewrite (unhex_upper_digit a x Hx), (unhex_upper_digit b y Hy).
Qed.

Lemma map_digitsOf_octet (g : list (ascii * ascii)) :
  Forall hexBoth g -> map digitsOf (map octet g) = map upperPair g.
Proof.
  induction 1 as [|p g Hp _ IH]; [reflexivity|].
  cbn [map]. now rewrite IH, (digitsOf_octet p Hp).
Qed.

Lemma map_octet_digitsOf (b : Buffer) : map octet (map digitsOf b) = b.
Proof.
  rewrite map_map. rewrite <- (map_id b) at 2.
  apply map_ext. intros v. apply octet_digitsOf.
Qed.

Lemma Forall_digitsOf (b : Buffer) : Forall hexBoth (map digitsOf b).
Proof.
  apply Forall_forall. intros p Hp. apply in_map_iff in Hp as (v & <- & _).
  apply digitsOf_hexBoth.
Qed.

Lemma window_length (buf : Buffer) (t : Z) :
  0 <= t -> t + 6 <= Z.of_nat (List.length buf) ->
  List.length (window buf t) = 6%nat.
Proof.
  intros Hlo Hhi. unfold window. rewrite length_firstn, length_skipn. lia.
Qed.

Lemma window_whole (b : Buffer) :
  List.length b = 6%nat -> window b 0 = b.
Proof.
  intros H. unfold window. change (Z.to_nat 0) with O. cbn [skipn].
  rewrite <- H. apply firstn_all.
Qed.

(** The string [toString] returns, whatever the separator. *)
Lemma toString_join (buf : Buffer) (offset : option Z)
    (separator : option string) :
  0 <= JS.bitwiseNotNot offset ->
  JS.bitwiseNotNot offset + 6 <= Z.of_nat (List.length buf) ->
  toString buf offset separator =
  Return (JS.join (JS.toUpperCase (separatorOrDefault separator))
            (map Spec.hex2 (window buf (JS.bitwiseNotNot offset)))).
Proof.
  intros Hlo Hhi. rewrite (toString_inside buf offset separator Hlo Hhi).
  fold (window buf (JS.bitwiseNotNot offset)).
  rewrite constructMacAddress_join, map_map.
  do 2 f_equal. apply map_ext. intros v. apply renderByte_upper.
Qed.

Lemma toString_layout (buf : Buffer) (offset : option Z)
    (separator : option string) (c : ascii) :
  0 <= JS.bitwiseNotNot offset ->
  JS.bitwiseNotNot offset + 6 <= Z.of_nat (List.length buf) ->
  separatorOrDefault separator = String c EmptyString ->
  JS.isSeparator c = true ->
  toString buf offset separator =
  Return (layout c (map digitsOf (window buf (JS.bitwiseNotNot offset)))).
Proof.
  intros Hlo Hhi E Hc. rewrite (toString_join buf offset separator Hlo Hhi), E.
  cbn [JS.toUpperCase]. rewrite (toUpperChar_separator c Hc).
  unfold JS.join, layout. now rewrite map_map.
Qed.

(** X4. When [~~offset] is not negative and 6 bytes fit from there,
    [toString] returns a string, and it depends on those 6 bytes only,
    whatever the separator: it is what [toString] returns for the 6 bytes
    alone.  With no separator, [:] or [-] that string is a valid address,
    and [toBuffer] of it is those 6 bytes again. *)
Theorem toString_at_offset (buf : Buffer) (offset : option Z)
    (separator : option string) :
  0 <= JS.bitwiseNotNot offset ->
  JS.bitwiseNotNot offset + 6 <= Z.of_nat (List.length buf) ->
  toString buf offset separator =
    toString (window buf (JS.bitwiseNotNot offset)) None separator /\
  (exists s, toString buf offset separator = Return s) /\
  (macSeparator separator ->
   exists s,
     toString buf offset separator = Return s /\
     isMacAddress s = true /\
     toBuffer s None None = Return (window buf (JS.bitwiseNotNot offset))).
Proof.
  intros Hlo Hhi.
  pose proof (window_length buf _ Hlo Hhi) as Hw.
  pose proof (toString_join buf offset separator Hlo Hhi) as E.
  set (w := window buf (JS.bitwiseNotNot offset)) in *.
  split; [|split].
  - rewrite E. rewrite (toString_join w None separator);
      cbn [JS.bitwiseNotNot]; try lia.
    now rewrite (window_whole w Hw).
  - eexists. exact E.
  - intros Hsep.
    destruct (macSeparator_char separator Hsep) as (c & Ec & Hc).
    assert (Hlen : List.length (map digitsOf w) = 6%nat)
      by now rewrite length_map.
    exists (layout c (map digitsOf w)). split; [|split].
    + now apply toString_layout.
    + apply layout_valid; [assumption | assumption | apply Forall_digitsOf].
    + rewrite (toBuffer_fresh_layout c _ Hc Hlen (Forall_digitsOf w)).
      now rewrite map_octet_digitsOf.
Qed.

Lemma toString_at_offset_witness :
  toString [x01; x02; xaa; xbb; xcc; xdd; xee; xff; x03] (Some 2) (Some "..") =
    toString [xaa; xbb; xcc; xdd; xee; xff] None (Some "..") /\
  exists s,
    toString [x01; x02; xaa; xbb; xcc; xdd; xee; xff; x03] (Some 2) (Some "-")
      = Return s /\
    isMacAddress s = true /\
    toBuffer s None None = Return [xaa; xbb; xcc; xdd; xee; xff].
Proof.
  split.
  - apply (toString_at_offset [x01; x02; xaa; xbb; xcc; xdd; xee; xff; x03]
             (Some 2) (Some "..")); vm_compute; discriminate.
  - apply (toString_at_offset [x01; x02; xaa; xbb; xcc; xdd; xee; xff; x03]
             (Some 2) (Some "-")).
    + vm_compute. discriminate.
    + vm_compute. discriminate.
    + right. right. reflexivity.
Defined.

(** X5. [toBuffer] then [toString]: for a valid address the bytes that
    [toBuffer] returns without target are rendered by [toString], with no
    separator, [:] or [-], as the groups of [toArray] joined by that
    separator: the address in upper case with the chosen separator. *)
Theorem toBuffer_toString_canonical (m : string) (separator : option string) :
  isMacAddress m = true -> macSeparator separator ->
  exists bytes,
    toBuffer m None None = Return bytes /\
    toString bytes None separator =
      Return (JS.join (separatorOrDefault separator) (toArray m)).
Proof.
  intros H Hsep. apply isMacAddress_layout in H as (s & g & -> & Hs & Hlen & Hg).
  destruct (macSeparator_char separator Hsep) as (c & Ec & Hc).
  exists (map octet g). split; [now apply toBuffer_fresh_layout|].
  assert (Hl : List.length (map octet g) = 6%nat) by now rewrite length_map.
  rewrite (toString_layout (map octet g) None separator c);
    cbn [JS.bitwiseNotNot]; try assumption; try lia.
  rewrite (window_whole _ Hl), (map_digitsOf_octet g Hg).
  rewrite (toArray_layout s g Hs (nonempty_of_length g Hlen) Hg), Ec.
  reflexivity.
Qed.

Lemma toBuffer_toString_canonical_witness :
  exists bytes,
    toBuffer "1c-91-76-89-60-9f" None None = Return bytes /\
    toString bytes None None = Return "1C:91:76:89:60:9F".
Proof.
  apply (toBuffer_toString_canonical "1c-91-76-89-60-9f" None).
  - reflexivity.
  - left. reflexivity.
Defined.

Lemma length_append (s t : string) :
  String.length (s ++ t) = (String.length s + String.length t)%nat.
Proof. induction s as [|c s IH]; simpl; [reflexivity | now rewrite IH]. Qed.

Lemma length_toUpperCase (s : string) :
  String.length (JS.toUpperCase s) = String.length s.
Proof. induction s as [|c s IH]; simpl; [reflexivity | now rewrite IH]. Qed.

Lemma isMacAddress_length (s : string) :
  isMacAddress s = true -> String.length s = 17%nat.
Proof.
  intros H. apply isMacAddress_layout in H as (sep & g & -> & Hs & Hlen & Hg).
  apply (layout_counts sep g Hs Hlen Hg).
Qed.

Lemma isMacAddress_third (a b u : ascii) (r : string) :
  isMacAddress (String a (String b (String u r))) = true ->
  JS.isSeparator u = true.
Proof.
  unfold isMacAddress, RegEx.macRegEx_test. cbn [RegEx.hexPair].
  destruct (RegEx.hexClass a && RegEx.hexClass b); [|discriminate].
  cbn [RegEx.separatorGroup]. destruct (JS.isSeparator u); [reflexivity | discriminate].
Qed.

Lemma join_hex2_length (U : string) (w : Buffer) :
  List.length w = 6%nat ->
  String.length (JS.join U (map Spec.hex2 w)) = (12 + 5 * String.length U)%nat.
Proof.
  intros Hw.
  destruct w as [|v1 [|v2 [|v3 [|v4 [|v5 [|v6 [|]]]]]]]; try discriminate Hw.
  unfold JS.join. cbn [map String.concat].
  rewrite !length_append. unfold Spec.hex2. cbn [String.length]. lia.
Qed.

(** X6. With a separator of the caller's own (not empty, of ASCII
    characters) [toString] joins the 6 upper-case groups by the upper-cased
    separator, and the result is a valid address exactly when the separator
    is [:] or [-]: any other separator gives a string that [toBuffer] and the
    other functions refuse. *)
Theorem toString_custom_separator (buf : Buffer) (offset : option Z)
    (sep : string) :
  0 <= JS.bitwiseNotNot offset ->
  JS.bitwiseNotNot offset + 6 <= Z.of_nat (List.length buf) ->
  sep <> EmptyString -> isAsciiString sep = true ->
  exists s,
    toString buf offset (Some sep) = Return s /\
    s = JS.join (JS.toUpperCase sep)
          (map Spec.hex2 (window buf (JS.bitwiseNotNot offset))) /\
    (isMacAddress s = true <-> (sep = ":" \/ sep = "-")).
Proof.
  intros Hlo Hhi Hne _.
  pose proof (window_length buf _ Hlo Hhi) as Hw.
  pose proof (toString_join buf offset (Some sep) Hlo Hhi) as E.
  assert (D : separatorOrDefault (Some sep) = sep)
    by (destruct sep; [congruence | reflexivity]).
  rewrite D in E. eexists. split; [exact E | split; [reflexivity|]].
  set (w := window buf (JS.bitwiseNotNot offset)) in *. split.
  - intros Hv. pose proof (isMacAddress_length _ Hv) as L.
    rewrite (join_hex2_length _ w Hw), length_toUpperCase in L.
    destruct sep as [|u [|u' sep']]; [congruence | | cbn [String.length] in L; lia].
    destruct w as [|v1 [|v2 w']]; try discriminate Hw.
    unfold JS.join, Spec.hex2 in Hv. cbn [map String.concat append JS.toUpperCase] in Hv.
    apply isMacAddress_third in Hv. rewrite toUpperChar_isSeparator in Hv.
    apply isSeparator_true in Hv as [-> | ->]; [now left | now right].
  - intros Hs.
    assert (Hm : macSeparator (Some sep))
      by (destruct Hs as [-> | ->]; [right; left | right; right]; reflexivity).
    destruct (macSeparator_char _ Hm) as (c & Ec & Hc).
    rewrite D in Ec. rewrite Ec. cbn [JS.toUpperCase].
    rewrite (toUpperChar_separator c Hc).
    replace (JS.join (String c "") (map Spec.hex2 w))
      with (layout c (map digitsOf w))
      by (unfold JS.join, layout; now rewrite map_map).
    apply layout_valid;
      [assumption | now rewrite length_map | apply Forall_digitsOf].
Qed.

Lemma toString_custom_separator_witness :
  exists s,
    toString [xaa; xbb; xcc; xdd; xee; xff] None (Some ".") = Return s /\
    s = "AA.BB.CC.DD.EE.FF" /\
    (isMacAddress s = true <-> ("." = ":" \/ "." = "-")).
Proof.
  apply (toString_custom_separator [xaa; xbb; xcc; xdd; xee; xff] None ".").
  - vm_compute. discriminate.
  - vm_compute. discriminate.
  - discriminate.
  - reflexivity.
Defined.

(** ** More on [toBuffer] *)

Lemma octet_upperPair (p : ascii * ascii) :
  hexBoth p -> octet (upperPair p) = octet p.
Proof.
  intros Hp. rewrite <- (digitsOf_octet p Hp). apply octet_digitsOf.
Qed.

Lemma pairOf_injective (p q : ascii * ascii) : pairOf p = pairOf q -> p = q.
Proof.
  destruct p, q. unfold pairOf, pair. cbn [fst snd]. now intros [= -> ->].
Qed.

Lemma map_pairOf_injective (g h : list (ascii * ascii)) :
  map pairOf g = map pairOf h -> g = h.
Proof.
  revert h. induction g as [|p g IH]; intros [|q h] E; try discriminate E;
    [reflexivity|].
  cbn [map] in E.
  pose proof (f_equal (hd EmptyString) E) as Ep.
  pose proof (f_equal (@tl string) E) as Eg. cbn [hd tl] in Ep, Eg.
  f_equal; [now apply pairOf_injective | now apply IH].
Qed.

Lemma map_octet_upper (g : list (ascii * ascii)) :
  Forall hexBoth g -> map octet (map upperPair g) = map octet g.
Proof.
  induction 1 as [|p g Hp _ IH]; [reflexivity|].
  cbn [map]. now rewrite IH, (octet_upperPair p Hp).
Qed.

(** X7. Without a target the offset is of no use: for a valid address
    [toBuffer] returns the bytes exactly when [~~offset] is 0; a positive
    one fails the length check on the fresh 6-byte buffer, a negative one
    passes it and fails in the write. *)
Theorem toBuffer_fresh_offset (mac : string) (offset : option Z) :
  isMacAddress mac = true ->
  (JS.bitwiseNotNot offset = 0 ->
   toBuffer mac None offset = toBuffer mac None None /\
   exists bytes, toBuffer mac None offset = Return bytes) /\
  (0 < JS.bitwiseNotNot offset ->
   toBuffer mac None offset =
   Throw (BufferTooSmallError (JS.bitwiseNotNot offset) 6)) /\
  (JS.bitwiseNotNot offset < 0 -> toBuffer mac None offset = Throw RangeError).
Proof.
  intros Hm. split; [|split].
  - intros Ht.
    assert (E : toBuffer mac None offset = toBuffer mac None None)
      by (unfold toBuffer; cbn [JS.bitwiseNotNot]; now rewrite Ht).
    split; [exact E|]. rewrite E.
    apply isMacAddress_layout in Hm as (s & g & -> & Hs & Hlen & Hg).
    eexists. now apply toBuffer_fresh_layout.
  - intros Ht. unfold toBuffer. rewrite Hm. cbn [negb].
    destruct (validateBufferLength_spec (Buf.alloc (Z.to_nat bufferLength))
                (JS.bitwiseNotNot offset)) as [[_ ->] | [Hge _]];
      [reflexivity|].
    change (Z.of_nat (List.length (Buf.alloc (Z.to_nat bufferLength)))) with 6 in Hge.
    lia.
  - intros Ht. unfold toBuffer. rewrite Hm. cbn [negb].
    destruct (validateBufferLength_spec (Buf.alloc (Z.to_nat bufferLength))
                (JS.bitwiseNotNot offset)) as [[Hlt _] | [_ ->]];
      [change (Z.of_nat (List.length (Buf.alloc (Z.to_nat bufferLength))))
         with 6 in Hlt; lia|].
    cbn [bind]. unfold Buf.write.
    destruct (Z.ltb_spec (JS.bitwiseNotNot offset) 0); [reflexivity | lia].
Qed.

Lemma toBuffer_fresh_offset_witness :
  toBuffer "AA:BB:CC:DD:EE:FF" None (Some 1) = Throw (BufferTooSmallError 1 6) /\
  toBuffer "AA:BB:CC:DD:EE:FF" None (Some (-1)) = Throw RangeError /\
  toBuffer "AA:BB:CC:DD:EE:FF" None (Some 4294967296) =
    toBuffer "AA:BB:CC:DD:EE:FF" None None.
Proof.
  split; [|split].
  - apply (toBuffer_fresh_offset "AA:BB:CC:DD:EE:FF" (Some 1) eq_refl).
    reflexivity.
  - apply (toBuffer_fresh_offset "AA:BB:CC:DD:EE:FF" (Some (-1)) eq_refl).
    reflexivity.
  - apply (toBuffer_fresh_offset "AA:BB:CC:DD:EE:FF" (Some 4294967296) eq_refl).
    reflexivity.
Defined.

(** X9. [toBuffer] compares by position: two valid addresses give the same
    bytes exactly when [toArray] gives the same groups in the same order,
    so case and the choice of separator do not matter and nothing else is
    lost. *)
Theorem toBuffer_positional (m1 m2 : string) :
  isMacAddress m1 = true -> isMacAddress m2 = true ->
  (toBuffer m1 None None = toBuffer m2 None None <-> toArray m1 = toArray m2).
Proof.
  intros H1 H2.
  apply isMacAddress_layout in H1 as (s1 & g1 & -> & Hs1 & Hl1 & Hg1).
  apply isMacAddress_layout in H2 as (s2 & g2 & -> & Hs2 & Hl2 & Hg2).
  rewrite (toBuffer_fresh_layout s1 g1 Hs1 Hl1 Hg1).
  rewrite (toBuffer_fresh_layout s2 g2 Hs2 Hl2 Hg2).
  rewrite (toArray_layout s1 g1 Hs1 (nonempty_of_length g1 Hl1) Hg1).
  rewrite (toArray_layout s2 g2 Hs2 (nonempty_of_length g2 Hl2) Hg2).
  split.
  - intros [= E]. f_equal.
    rewrite <- (map_digitsOf_octet g1 Hg1), <- (map_digitsOf_octet g2 Hg2).
    now rewrite E.
  - intros E. apply map_pairOf_injective in E. f_equal.
    rewrite <- (map_octet_upper g1 Hg1), <- (map_octet_upper g2 Hg2).
    now rewrite E.
Qed.

Lemma toBuffer_positional_witness :
  toBuffer "aa-bb-cc-dd-ee-ff" None None = toBuffer "AA:BB:CC:DD:EE:FF" None None.
Proof.
  apply (toBuffer_positional "aa-bb-cc-dd-ee-ff" "AA:BB:CC:DD:EE:FF");
    reflexivity.
Defined.

(** ** More on [reverseMacAddress] *)

Lemma Forall_hexBoth_rev_upper (g : list (ascii * ascii)) :
  Forall hexBoth g -> Forall hexBoth (rev (map upperPair g)).
Proof.
  intros Hg. apply Forall_rev. now apply Forall_hexBoth_upper.
Qed.

Lemma toArray_reversed (g : list (ascii * ascii)) :
  List.length g = 6%nat -> Forall hexBoth g ->
  toArray (layout ":" (rev (map upperPair g))) =
  rev (map pairOf (map upperPair g)).
Proof.
  intros Hlen Hg.
  rewrite (toArray_layout ":" _ eq_refl);
    [ | apply nonempty_of_length; now rewrite length_rev, length_map
      | now apply Forall_hexBoth_rev_upper ].
  now rewrite (map_rev upperPair), map_upper_twice, (map_rev pairOf).
Qed.

(** X10. The address [reverseMacAddress] returns for a valid address is
    itself valid, and its groups are those of the original in reverse
    order; reversing it again returns the groups of the original joined by
    [:], which is the original itself when that one is already written in
    upper case with [:]. *)
Theorem reverseMacAddress_result (m : string) :
  isMacAddress m = true ->
  exists r,
    reverseMacAddress m = Return r /\
    isMacAddress r = true /\
    toArray r = rev (toArray m) /\
    reverseMacAddress r = Return (JS.join ":" (toArray m)) /\
    (m = JS.join ":" (toArray m) -> reverseMacAddress r = Return m).
Proof.
  intros H. apply isMacAddress_layout in H as (s & g & -> & Hs & Hlen & Hg).
  pose proof (Forall_hexBoth_rev_upper g Hg) as Hrev.
  assert (Hrlen : List.length (rev (map upperPair g)) = 6%nat)
    by now rewrite length_rev, length_map.
  assert (R2 : reverseMacAddress (layout ":" (rev (map upperPair g))) =
               Return (JS.join ":" (toArray (layout s g)))).
  { rewrite (reverseMacAddress_layout ":" _ eq_refl Hrlen Hrev), rev_upper_twice.
    now rewrite (toArray_layout s g Hs (nonempty_of_length g Hlen) Hg), join_pairs. }
  exists (layout ":" (rev (map upperPair g))).
  split; [now apply reverseMacAddress_layout|].
  split; [now apply layout_valid|].
  split; [|split; [exact R2|]].
  - rewrite (toArray_reversed g Hlen Hg).
    now rewrite (toArray_layout s g Hs (nonempty_of_length g Hlen) Hg).
  - intros E. rewrite R2. now rewrite <- E.
Qed.

Lemma reverseMacAddress_result_witness :
  exists r,
    reverseMacAddress "AA:BB:CC:DD:EE:FF" = Return r /\
    isMacAddress r = true /\
    toArray r = rev (toArray "AA:BB:CC:DD:EE:FF") /\
    reverseMacAddress r = Return "AA:BB:CC:DD:EE:FF".
Proof.
  destruct (reverseMacAddress_result "AA:BB:CC:DD:EE:FF" eq_refl)
    as (r & H1 & H2 & H3 & _ & H5).
  exists r. repeat split; try assumption. apply H5. reflexivity.
Defined.

(** X11. Reversal commutes with the conversion to bytes: the bytes of the
    reversed address are the bytes of the address in reverse order. *)
Theorem reverseMacAddress_toBuffer (m : string) :
  isMacAddress m = true ->
  exists r bytes,
    reverseMacAddress m = Return r /\
    toBuffer m None None = Return bytes /\
    toBuffer r None None = Return (rev bytes).
Proof.
  intros H. apply isMacAddress_layout in H as (s & g & -> & Hs & Hlen & Hg).
  exists (layout ":" (rev (map upperPair g))), (map octet g).
  split; [now apply reverseMacAddress_layout|].
  split; [now apply toBuffer_fresh_layout|].
  rewrite (toBuffer_fresh_layout ":" _ eq_refl);
    [ | now rewrite length_rev, length_map
      | now apply Forall_hexBoth_rev_upper ].
  now rewrite map_rev, (map_octet_upper g Hg).
Qed.

Lemma reverseMacAddress_toBuffer_witness :
  exists r bytes,
    reverseMacAddress "1c-91-76-89-60-94" = Return r /\
    toBuffer "1c-91-76-89-60-94" None None = Return bytes /\
    toBuffer r None None = Return (rev bytes).
Proof.
  apply (reverseMacAddress_toBuffer "1c-91-76-89-60-94"). reflexivity.
Defined.

(** ** More on [areEqual] *)

Lemma setEqual_rev (A : list string) : Spec.setEqual A (rev A).
Proof. intros g. apply in_rev. Qed.

(** X12. [areEqual] does not look at the order of the groups: a valid
    address and its reversal are reported equal, in either order of the
    arguments, though their groups stand in opposite order. *)
Theorem areEqual_reversal (m : string) :
  isMacAddress m = true ->
  exists r,
    reverseMacAddress m = Return r /\
    toArray r = rev (toArray m) /\
    areEqual [m; r] = Return true /\
    areEqual [r; m] = Return true.
Proof.
  intros H. pose proof H as Hm.
  apply isMacAddress_layout in H as (s & g & -> & Hs & Hlen & Hg).
  assert (Hr : isMacAddress (layout ":" (rev (map upperPair g))) = true).
  { apply layout_valid;
      [reflexivity | now rewrite length_rev, length_map
       | now apply Forall_hexBoth_rev_upper]. }
  assert (T : toArray (layout ":" (rev (map upperPair g))) =
              rev (toArray (layout s g))).
  { rewrite (toArray_reversed g Hlen Hg).
    now rewrite (toArray_layout s g Hs (nonempty_of_length g Hlen) Hg). }
  exists (layout ":" (rev (map upperPair g))).
  split; [now apply reverseMacAddress_layout|]. split; [exact T|].
  split.
  - rewrite areEqual_valid by (repeat constructor; assumption).
    cbn [hd map forallb]. rewrite sameElements_refl, T.
    rewrite (proj2 (sameElements_setEqual _ _) (setEqual_rev _)). reflexivity.
  - rewrite areEqual_valid by (repeat constructor; assumption).
    cbn [hd map forallb]. rewrite sameElements_refl, T.
    assert (S : Spec.setEqual (rev (toArray (layout s g))) (toArray (layout s g)))
      by (intros x; symmetry; apply in_rev).
    rewrite (proj2 (sameElements_setEqual _ _) S). reflexivity.
Qed.

Lemma areEqual_reversal_witness :
  exists r,
    reverseMacAddress "AA:BB:CC:DD:EE:FF" = Return r /\
    toArray r = rev (toArray "AA:BB:CC:DD:EE:FF") /\
    areEqual ["AA:BB:CC:DD:EE:FF"; r] = Return true /\
    areEqual [r; "AA:BB:CC:DD:EE:FF"] = Return true.
Proof.
  apply (areEqual_reversal "AA:BB:CC:DD:EE:FF"). reflexivity.
Defined.

Lemma setEqual_sym (A B : list string) :
  Spec.setEqual A B -> Spec.setEqual B A.
Proof. intros H g. symmetry. apply H. Qed.

Lemma setEqual_trans (A B C : list string) :
  Spec.setEqual A B -> Spec.setEqual B C -> Spec.setEqual A C.
Proof. intros H1 H2 g. rewrite (H1 g). apply H2. Qed.

Lemma areEqual_true_pairwise (l : list string) :
  allValid l ->
  exists r, areEqual l = Return r /\
    (r = true <->
     forall a b, In a l -> In b l -> Spec.setEqual (toArray a) (toArray b)).
Proof.
  intros H. eexists. split; [now apply areEqual_valid|].
  rewrite forallb_forall. split.
  - intros Hall a b Ha Hb.
    pose proof (Hall _ (in_map toArray _ _ Ha)) as Sa.
    pose proof (Hall _ (in_map toArray _ _ Hb)) as Sb.
    apply sameElements_setEqual in Sa, Sb.
    exact (setEqual_trans _ _ _ (setEqual_sym _ _ Sa) Sb).
  - intros Hall x Hx. apply in_map_iff in Hx as (a & <- & Ha).
    apply sameElements_setEqual. apply Hall; [|assumption].
    destruct l as [|h t]; [destruct Ha | now left].
Qed.

(** X13. On valid arguments [areEqual] returns true exactly when the groups
    of any two arguments make the same set, so the order in which the
    arguments are passed does not change the result, though each argument is
    compared with the first one only. *)
Theorem areEqual_argument_order (l l' : list string) :
  allValid l -> Permutation l l' ->
  areEqual l' = areEqual l /\
  (areEqual l = Return true <->
   forall a b, In a l -> In b l -> Spec.setEqual (toArray a) (toArray b)).
Proof.
  intros H P.
  assert (H' : allValid l') by (unfold allValid; now rewrite <- P).
  destruct (areEqual_true_pairwise l H) as (r & E & Hr).
  destruct (areEqual_true_pairwise l' H') as (r' & E' & Hr').
  rewrite E, E'. split.
  - f_equal.
    assert (Q : r = true <-> r' = true).
    { rewrite Hr, Hr'. split; intros Hall a b Ha Hb; apply Hall.
      - now rewrite P. - now rewrite P.
      - now rewrite <- P. - now rewrite <- P. }
    destruct r, r'; try reflexivity;
      [apply Q; reflexivity | symmetry; apply Q; reflexivity].
  - rewrite <- Hr. split; [now intros [= ->] | now intros ->].
Qed.

Lemma areEqual_argument_order_witness :
  areEqual ["bb:aa:bb:aa:bb:aa"; "AA-BB-AA-BB-AA-BB"; "aa:aa:aa:aa:aa:bb"] =
  areEqual ["aa:aa:aa:aa:aa:bb"; "bb:aa:bb:aa:bb:aa"; "AA-BB-AA-BB-AA-BB"].
Proof.
  refine (proj1 (areEqual_argument_order
           ["aa:aa:aa:aa:aa:bb"; "bb:aa:bb:aa:bb:aa"; "AA-BB-AA-BB-AA-BB"]
           ["bb:aa:bb:aa:bb:aa"; "AA-BB-AA-BB-AA-BB"; "aa:aa:aa:aa:aa:bb"]
           _ _)).
  - repeat constructor.
  - exact (Permutation_cons_append
             ["bb:aa:bb:aa:bb:aa"; "AA-BB-AA-BB-AA-BB"] "aa:aa:aa:aa:aa:bb").
Defined.

Lemma upperPair_digitsOf (v : byte) : upperPair (digitsOf v) = digitsOf v.
Proof.
  rewrite <- (digitsOf_octet _ (digitsOf_hexBoth v)).
  now rewrite octet_digitsOf.
Qed.

Lemma hex2_injective (v v' : byte) : Spec.hex2 v = Spec.hex2 v' -> v = v'.
Proof.
  rewrite !hex2_digitsOf. intros E. apply pairOf_injective in E.
  rewrite <- (octet_digitsOf v), <- (octet_digitsOf v'). now rewrite E.
Qed.

Lemma In_hex2 (v : byte) (b : Buffer) :
  In (Spec.hex2 v) (map Spec.hex2 b) <-> In v b.
Proof.
  split.
  - intros H. apply in_map_iff in H as (v' & E & Hv').
    apply hex2_injective in E. now subst.
  - apply in_map.
Qed.

Lemma toString_whole (b : Buffer) :
  List.length b = 6%nat ->
  toString b None None = Return (layout ":" (map digitsOf b)) /\
  isMacAddress (layout ":" (map digitsOf b)) = true /\
  toArray (layout ":" (map digitsOf b)) = map Spec.hex2 b.
Proof.
  intros Hlen.
  assert (Hl : List.length (map digitsOf b) = 6%nat) by now rewrite length_map.
  split; [|split].
  - rewrite (toString_layout b None None ":"); cbn [JS.bitwiseNotNot];
      try reflexivity; try lia.
    now rewrite (window_whole b Hlen).
  - apply layout_valid; [reflexivity | assumption | apply Forall_digitsOf].
  - rewrite (toArray_layout ":" _ eq_refl (nonempty_of_length _ Hl)
               (Forall_digitsOf b)).
    rewrite !map_map. apply map_ext. intros v.
    now rewrite upperPair_digitsOf.
Qed.

(** X14. [toString] then [areEqual]: the strings of two 6-byte buffers are
    reported equal exactly when the two buffers hold the same set of byte
    values, whatever their order and however often each value occurs. *)
Theorem areEqual_of_buffers (b1 b2 : Buffer) :
  List.length b1 = 6%nat -> List.length b2 = 6%nat ->
  exists s1 s2 r,
    toString b1 None None = Return s1 /\
    toString b2 None None = Return s2 /\
    areEqual [s1; s2] = Return r /\
    (r = true <-> forall v, In v b1 <-> In v b2).
Proof.
  intros H1 H2.
  destruct (toString_whole b1 H1) as (E1 & V1 & A1).
  destruct (toString_whole b2 H2) as (E2 & V2 & A2).
  eexists. eexists. eexists.
  split; [exact E1 | split; [exact E2|]].
  split; [apply areEqual_valid; repeat constructor; assumption|].
  cbn [hd map forallb]. rewrite sameElements_refl, A1, A2, andb_true_r.
  cbn [andb]. rewrite sameElements_setEqual. split.
  - intros S v. rewrite <- (In_hex2 v b1), <- (In_hex2 v b2). apply S.
  - intros S g. split; intros Hg; apply in_map_iff in Hg as (v & <- & Hv);
      apply in_map; now apply S.
Qed.

Lemma areEqual_of_buffers_witness :
  exists s1 s2 r,
    toString [x01; x02; x01; x02; x01; x02] None None = Return s1 /\
    toString [x02; x02; x02; x02; x02; x01] None None = Return s2 /\
    areEqual [s1; s2] = Return r /\
    (r = true <->
     forall v, In v [x01; x02; x01; x02; x01; x02] <->
               In v [x02; x02; x02; x02; x02; x01]).
Proof.
  apply (areEqual_of_buffers [x01; x02; x01; x02; x01; x02]
           [x02; x02; x02; x02; x02; x01]); reflexivity.
Defined.
